(** * opencligen: the spec-to-plan-to-execution chain

    A shallow embedding of the plan builder ([internal/plan]: naming and
    build) and of the runtime skeleton ([internal/gen/runtime/request.go],
    [internal/runtime_skel]: response rendering, SSE decoding, configuration)
    of crunchloop/opencligen, with the properties of its specification.

    Go strings are byte sequences: they are modelled by [string], whose
    characters ([ascii]) are the 256 byte values.  Runes and Go integers are
    [Z].  Go maps are [gmap]s; the unspecified order of a [range] over a map
    is an explicit argument of the functions that iterate over one. *)

From Stdlib Require Import ZArith Lia List String Ascii Bool Permutation.
From stdpp Require Import gmap strings list sorting pretty.

Local Open Scope Z_scope.

(** ** The Go library functions the program calls *)

Module Go.

(** The value of a byte, and the byte of a value in [0, 255]. *)
Definition code (c : ascii) : Z := Z.of_N (N_of_ascii c).
Definition chr (z : Z) : ascii := ascii_of_N (Z.to_N z).

Definition between (lo hi x : Z) : bool := (lo <=? x) && (x <=? hi).

(** Byte-wise helpers on strings. *)
Definition str1 (c : ascii) : string := String c EmptyString.

(** The newline and the double quote, which a literal cannot hold. *)
Definition nl : string := str1 "010".
Definition quote : string := str1 "034".

Fixpoint drop (n : nat) (s : string) : string :=
  match n, s with
  | O, _ => s
  | S n', String _ s' => drop n' s'
  | S _, EmptyString => EmptyString
  end.

Fixpoint take (n : nat) (s : string) : string :=
  match n, s with
  | S n', String c s' => String c (take n' s')
  | _, _ => EmptyString
  end.

Fixpoint forallb (p : ascii → bool) (s : string) : bool :=
  match s with
  | EmptyString => true
  | String c s' => p c && forallb p s'
  end.

Fixpoint last (s : string) : option ascii :=
  match s with
  | EmptyString => None
  | String c EmptyString => Some c
  | String _ s' => last s'
  end.

(** *** unicode/utf8 *)

Definition RuneError : Z := 0xFFFD.
Definition RuneSelf : Z := 0x80.
Definition MaxRune : Z := 0x10FFFF.

Definition cont (lo hi : Z) (c : ascii) : bool := between lo hi (code c).

(** [utf8.DecodeRuneInString]: the first rune of [s] and its width in
    bytes; an invalid or short encoding is [(RuneError, 1)]. *)
Definition DecodeRuneInString (s : string) : Z * nat :=
  match s with
  | EmptyString => (RuneError, 0%nat)
  | String c0 rest =>
    let b0 := code c0 in
    if b0 <? RuneSelf then (b0, 1%nat)
    else if between 0xC2 0xDF b0 then
      match rest with
      | String c1 _ =>
        if cont 0x80 0xBF c1
        then (Z.lor (Z.shiftl (Z.land b0 0x1F) 6) (Z.land (code c1) 0x3F), 2%nat)
        else (RuneError, 1%nat)
      | _ => (RuneError, 1%nat)
      end
    else if between 0xE0 0xEF b0 then
      let lo := if b0 =? 0xE0 then 0xA0 else 0x80 in
      let hi := if b0 =? 0xED then 0x9F else 0xBF in
      match rest with
      | String c1 (String c2 _) =>
        if cont lo hi c1 && cont 0x80 0xBF c2
        then (Z.lor (Z.lor (Z.shiftl (Z.land b0 0x0F) 12)
                           (Z.shiftl (Z.land (code c1) 0x3F) 6))
                    (Z.land (code c2) 0x3F), 3%nat)
        else (RuneError, 1%nat)
      | _ => (RuneError, 1%nat)
      end
    else if between 0xF0 0xF4 b0 then
      let lo := if b0 =? 0xF0 then 0x90 else 0x80 in
      let hi := if b0 =? 0xF4 then 0x8F else 0xBF in
      match rest with
      | String c1 (String c2 (String c3 _)) =>
        if cont lo hi c1 && cont 0x80 0xBF c2 && cont 0x80 0xBF c3
        then (Z.lor (Z.lor (Z.lor (Z.shiftl (Z.land b0 0x07) 18)
                                  (Z.shiftl (Z.land (code c1) 0x3F) 12))
                           (Z.shiftl (Z.land (code c2) 0x3F) 6))
                    (Z.land (code c3) 0x3F), 4%nat)
        else (RuneError, 1%nat)
      | _ => (RuneError, 1%nat)
      end
    else (RuneError, 1%nat)
  end.

(** [utf8.AppendRune], which [strings.Builder.WriteRune] calls: the UTF-8
    encoding of [r]; a surrogate or out-of-range rune is written as
    [RuneError]. *)
Definition EncodeRune (r : Z) : string :=
  let b3 (x : Z) :=
    String (chr (Z.lor 0xE0 (Z.shiftr x 12)))
      (String (chr (Z.lor 0x80 (Z.land (Z.shiftr x 6) 0x3F)))
         (str1 (chr (Z.lor 0x80 (Z.land x 0x3F))))) in
  if between 0 0x7F r then str1 (chr r)
  else if between 0 0x7FF r then
    String (chr (Z.lor 0xC0 (Z.shiftr r 6)))
      (str1 (chr (Z.lor 0x80 (Z.land r 0x3F))))
  else if (r <? 0) || (MaxRune <? r) || between 0xD800 0xDFFF r then b3 RuneError
  else if r <=? 0xFFFF then b3 r
  else
    String (chr (Z.lor 0xF0 (Z.shiftr r 18)))
      (String (chr (Z.lor 0x80 (Z.land (Z.shiftr r 12) 0x3F)))
         (String (chr (Z.lor 0x80 (Z.land (Z.shiftr r 6) 0x3F)))
            (str1 (chr (Z.lor 0x80 (Z.land r 0x3F)))))).

(** One iteration of [for i, r := range s]: the byte before index [i]
    ([None] when [i = 0]), the rune [r] and the bytes it was decoded from. *)
Record RuneAt := { before : option ascii; rune : Z; raw : string }.

(** [for i, r := range s].  [skip] counts the bytes of the current rune
    that are still to be passed over. *)
Fixpoint range_go (skip : nat) (prev : option ascii) (s : string) : list RuneAt :=
  match s with
  | EmptyString => []
  | String c s' =>
    match skip with
    | S k => range_go k (Some c) s'
    | O =>
      let '(r, size) := DecodeRuneInString s in
      {| before := prev; rune := r; raw := take size s |}
        :: range_go (size - 1) (Some c) s'
    end
  end.

Definition range (s : string) : list RuneAt := range_go 0 None s.

(** *** unicode

    The range tables of Go's [unicode] package are data of the Go
    distribution.  They are taken as a parameter: every function below
    follows the code of the package, which answers from fixed properties
    for Latin-1 (or ASCII) runes and consults the tables for the others. *)
Class UnicodeTables := {
  (** [unicode.Is(unicode.Upper, r)], consulted for [r > MaxLatin1] *)
  upperTable : Z → bool;
  (** [unicode.To(unicode.LowerCase, r)], consulted for [r > MaxASCII] *)
  toLowerTable : Z → Z;
  (** [unicode.To(unicode.UpperCase, r)], consulted for [r > MaxASCII] *)
  toUpperTable : Z → Z
}.

Definition MaxASCII : Z := 0x7F.
Definition MaxLatin1 : Z := 0xFF.

(** The Latin-1 runes whose property is [pLu]: A-Z, and U+00C0-U+00DE
    without the multiplication sign U+00D7. *)
Definition latin1Upper (r : Z) : bool :=
  between 0x41 0x5A r || (between 0xC0 0xDE r && negb (r =? 0xD7)).

Definition IsUpper `{UnicodeTables} (r : Z) : bool :=
  if between 0 MaxLatin1 r then latin1Upper r else upperTable r.

Definition ToLower `{UnicodeTables} (r : Z) : Z :=
  if r <=? MaxASCII then (if between 0x41 0x5A r then r + 32 else r)
  else toLowerTable r.

Definition ToUpper `{UnicodeTables} (r : Z) : Z :=
  if r <=? MaxASCII then (if between 0x61 0x7A r then r - 32 else r)
  else toUpperTable r.

(** [unicode.IsSpace]: the White_Space property, which is small enough to
    be written out. *)
Definition IsSpace (r : Z) : bool :=
  if between 0 MaxLatin1 r
  then between 0x09 0x0D r || (r =? 0x20) || (r =? 0x85) || (r =? 0xA0)
  else (r =? 0x1680) || between 0x2000 0x200A r || (r =? 0x2028)
       || (r =? 0x2029) || (r =? 0x202F) || (r =? 0x205F) || (r =? 0x3000).

(** *** strings *)

Fixpoint HasPrefix (s p : string) {struct p} : bool :=
  match p, s with
  | EmptyString, _ => true
  | String a p', String b s' => Ascii.eqb a b && HasPrefix s' p'
  | String _ _, EmptyString => false
  end.

Definition TrimPrefix (s p : string) : string :=
  if HasPrefix s p then drop (String.length p) s else s.

Definition HasSuffix (s p : string) : bool :=
  (String.length p <=? String.length s)%nat
  && String.eqb (drop (String.length s - String.length p) s) p.

Definition TrimSuffix (s p : string) : string :=
  if HasSuffix s p then take (String.length s - String.length p) s else s.

Fixpoint Contains (s sub : string) : bool :=
  HasPrefix s sub
  || match s with
     | EmptyString => false
     | String _ s' => Contains s' sub
     end.

(** [strings.ReplaceAll s old new] for a non-empty [old] (the program has
    no other call): the non-overlapping occurrences of [old], leftmost
    first.  [skip] counts the bytes of the occurrence being replaced. *)
Fixpoint replace_go (old new : string) (skip : nat) (s : string) : string :=
  match s with
  | EmptyString => EmptyString
  | String c s' =>
    match skip with
    | S k => replace_go old new k s'
    | O =>
      if HasPrefix s old
      then new +:+ replace_go old new (String.length old - 1) s'
      else String c (replace_go old new 0 s')
    end
  end.

Definition ReplaceAll (s old new : string) : string :=
  match old with
  | EmptyString => s
  | _ => replace_go old new 0 s
  end.

(** [strings.Split s sep] for a non-empty [sep] (the program has no
    other call): the parts between the non-overlapping occurrences of
    [sep], leftmost first.  [cur] holds the bytes of the part being
    read. *)
Fixpoint split_go (sep : string) (skip : nat) (cur s : string) : list string :=
  match s with
  | EmptyString => [cur]
  | String c s' =>
    match skip with
    | S k => split_go sep k cur s'
    | O =>
      if HasPrefix s sep
      then cur :: split_go sep (String.length sep - 1) EmptyString s'
      else split_go sep 0 (cur +:+ str1 c) s'
    end
  end.

Definition Split (s sep : string) : list string := split_go sep 0 EmptyString s.

Fixpoint Join (elems : list string) (sep : string) : string :=
  match elems with
  | [] => EmptyString
  | [e] => e
  | e :: rest => e +:+ sep +:+ Join rest sep
  end.

(** [strings.Trim s cutset] for a cutset of one ASCII byte. *)
Fixpoint trimLeftByte (c : ascii) (s : string) : string :=
  match s with
  | String c' s' => if Ascii.eqb c' c then trimLeftByte c s' else s
  | EmptyString => EmptyString
  end.

Fixpoint trimRightByte (c : ascii) (s : string) : string :=
  match s with
  | EmptyString => EmptyString
  | String c' s' =>
    match trimRightByte c s' with
    | EmptyString => if Ascii.eqb c' c then EmptyString else str1 c'
    | t => String c' t
    end
  end.

Definition TrimByte (s : string) (c : ascii) : string :=
  trimRightByte c (trimLeftByte c s).

(** [strings.Map mapping s]: a negative result drops the rune. *)
Definition Map (mapping : Z → Z) (s : string) : string :=
  String.concat EmptyString
    (List.map (λ x, let r := mapping (rune x) in
                    if r <? 0 then EmptyString else EncodeRune r) (range s)).

(** The conversions [[]rune(s)] and [string(runes)]. *)
Definition runes (s : string) : list Z := List.map rune (range s).

Definition ofRunes (rs : list Z) : string :=
  String.concat EmptyString (List.map EncodeRune rs).

(** [strings.ToUpper]: byte-wise on an ASCII string, rune-wise otherwise. *)
Fixpoint upperASCII (s : string) : string :=
  match s with
  | EmptyString => EmptyString
  | String c s' =>
    String (if between 0x61 0x7A (code c) then chr (code c - 32) else c)
           (upperASCII s')
  end.

Definition isASCII (s : string) : bool := forallb (λ c, code c <? RuneSelf) s.

Definition strings_ToUpper `{UnicodeTables} (s : string) : string :=
  if isASCII s then upperASCII s else Map ToUpper s.

(** [strings.Fields]: the maximal runs of runes that are not white space. *)
Fixpoint fields_go (cur : string) (rs : list RuneAt) : list string :=
  match rs with
  | [] => if String.eqb cur EmptyString then [] else [cur]
  | x :: rs' =>
    if IsSpace (rune x)
    then (if String.eqb cur EmptyString then [] else [cur]) ++ fields_go EmptyString rs'
    else fields_go (cur +:+ raw x) rs'
  end.

Definition Fields (s : string) : list string := fields_go EmptyString (range s).

(** [utf8.DecodeLastRuneInString]. *)
Definition byteAt (s : string) (i : Z) : Z :=
  match String.get (Z.to_nat i) s with
  | Some c => code c
  | None => 0
  end.

Definition RuneStart (b : Z) : bool := negb (Z.land b 0xC0 =? 0x80).

Definition DecodeLastRuneInString (s : string) : Z * nat :=
  let end_ := Z.of_nat (String.length s) in
  if end_ =? 0 then (RuneError, 0%nat)
  else
    let r := byteAt s (end_ - 1) in
    if r <? RuneSelf then (r, 1%nat)
    else
      let lim := Z.max 0 (end_ - 4) in
      let start :=
        if (lim <=? end_ - 2) && RuneStart (byteAt s (end_ - 2)) then end_ - 2
        else if (lim <=? end_ - 3) && RuneStart (byteAt s (end_ - 3)) then end_ - 3
        else if (lim <=? end_ - 4) && RuneStart (byteAt s (end_ - 4)) then end_ - 4
        else lim in
      let '(r', size) := DecodeRuneInString (drop (Z.to_nat start) s) in
      if start + Z.of_nat size =? end_ then (r', size) else (RuneError, 1%nat).

(** [strings.TrimSpace]: the leading, then the trailing white space runes
    are removed (its ASCII fast path and [TrimFunc] agree on that). *)
Fixpoint trimLeftSpace (rs : list RuneAt) : string :=
  match rs with
  | [] => EmptyString
  | x :: rs' =>
    if IsSpace (rune x) then trimLeftSpace rs'
    else String.concat EmptyString (List.map raw rs)
  end.

Fixpoint trimRightSpace (fuel : nat) (s : string) : string :=
  match fuel with
  | O => s
  | S fuel' =>
    let '(r, size) := DecodeLastRuneInString s in
    if (0 <? size)%nat && IsSpace r
    then trimRightSpace fuel' (take (String.length s - size) s)
    else s
  end.

Definition TrimSpace (s : string) : string :=
  let t := trimLeftSpace (range s) in
  trimRightSpace (String.length t) t.

End Go.


(** ** internal/spec/model.go *)

Module Spec.

(** [interface{}] and [float64] values are only copied by the plan
    builder: their types are left open. *)
Class GoTypes := { any : Type; float64 : Type }.

(** [CliOverrides]: x-cli overrides at the operation level. *)
Module CliOverrides.
Record t := {
  Name : string;
  Group : string;
  Aliases : list string;
  Hidden : bool
}.
End CliOverrides.

(** [ParamCliOverrides]: x-cli overrides at the parameter level.
    [Positional] is a [*bool]: unset, true or false. *)
Module ParamCliOverrides.
Record t := {
  Flag : string;
  Shorthand : string;
  Env : string;
  ConfigKey : string;
  Positional : option bool
}.
End ParamCliOverrides.

Module Param.
Record t `{GoTypes} := {
  Name : string;
  In : string;
  Required : bool;
  Type' : string;
  Format : string;
  Default : any;
  Min : option float64;
  Max : option float64;
  Description : string;
  Cli : option ParamCliOverrides.t
}.
End Param.

Module RequestBody.
Record t := {
  Required : bool;
  ContentTypes : list string;
  Description : string
}.
End RequestBody.

Module Response.
Record t := {
  StatusCode : string;
  Description : string;
  ContentTypes : list string
}.
End Response.

Module Operation.
Record t `{GoTypes} := {
  Tag : string;
  Method : string;
  Path : string;
  OperationID : string;
  Summary : string;
  Description : string;
  Params : list Param.t;
  RequestBody : option RequestBody.t;
  Responses : list Response.t;
  Cli : option CliOverrides.t
}.
End Operation.

Record t `{GoTypes} := {
  Title : string;
  Version : string;
  Description : string;
  Operations : list Operation.t;
  GlobalCli : option CliOverrides.t
}.

(** The method [HasEventStream] of [Operation]. *)
Definition HasEventStream `{GoTypes} (o : Operation.t) : bool :=
  existsb (λ resp, existsb (λ ct, Go.Contains ct "text/event-stream")
                           (Response.ContentTypes resp))
          (Operation.Responses o).

(** The method [HasJSONBody] of [Operation]. *)
Definition HasJSONBody `{GoTypes} (o : Operation.t) : bool :=
  match Operation.RequestBody o with
  | None => false
  | Some rb => existsb (λ ct, Go.Contains ct "application/json")
                       (RequestBody.ContentTypes rb)
  end.

End Spec.

(** ** internal/plan *)

Module Plan.
Import Go.
Import Spec (GoTypes, any, float64).

Module ParamPlan.
Record t `{GoTypes} := {
  Name : string;
  FlagName : string;
  Shorthand : string;
  Type' : string;
  Format : string;
  Required : bool;
  Default : any;
  Min : option float64;
  Max : option float64;
  Description : string;
  EnvVar : string;
  ConfigKey : string;
  In : string
}.
End ParamPlan.

Module OpPlan.
Record t `{GoTypes} := {
  CommandPath : list string;
  Method : string;
  Path : string;
  OperationID : string;
  Summary : string;
  Description : string;
  Positionals : list ParamPlan.t;
  Flags : list ParamPlan.t;
  HasJSONBody : bool;
  IsEventStream : bool;
  Hidden : bool;
  Aliases : list string
}.
End OpPlan.

Module GroupPlan.
Record t `{GoTypes} := {
  Name : string;
  Description : string;
  Operations : list OpPlan.t
}.
End GroupPlan.

Record t `{GoTypes} := {
  AppName : string;
  ModuleName : string;
  Groups : list GroupPlan.t
}.

Section Naming.
Context `{UnicodeTables}.

(** The body of the [range] loop of [toKebabCase]: what one rune adds
    to the builder. *)
Definition kebabStep (x : RuneAt) : string :=
  let r := rune x in
  if IsUpper r then
    (match before x with
     | Some p =>
       if negb (IsUpper (code p)) && negb (code p =? 0x2D) && negb (code p =? 0x5F)
       then "-" else ""
     | None => ""
     end) +:+ EncodeRune (ToLower r)
  else if (r =? 0x5F) || (r =? 0x20) then "-"
  else EncodeRune r.

(** [for strings.Contains(res, "--") { res = strings.ReplaceAll(res, "--", "-") }];
    every round shortens [res], so its length bounds the rounds. *)
Fixpoint collapseHyphens (fuel : nat) (res : string) : string :=
  match fuel with
  | O => res
  | S fuel' =>
    if Contains res "--"
    then collapseHyphens fuel' (ReplaceAll res "--" "-")
    else res
  end.

Definition toKebabCase (s : string) : string :=
  if String.eqb s "" then s
  else
    let result := String.concat "" (List.map kebabStep (range s)) in
    let res := collapseHyphens (String.length result) result in
    TrimByte res "-".

(** The patterns [^verb[A-Z]] of [DeriveCommandName]. *)
Definition prefixes : list string :=
  ["list"; "get"; "create"; "update"; "delete"; "start"; "stop";
   "cancel"; "ping"; "subscribe"].

Definition matchVerb (verb operationID : string) : bool :=
  HasPrefix operationID verb
  && match String.get (String.length verb) operationID with
     | Some c => between 0x41 0x5A (code c)
     | None => false
     end.

Definition DeriveCommandName (operationID : string) : string :=
  match List.find (λ verb, matchVerb verb operationID) prefixes with
  | Some verb => verb
  | None => toKebabCase operationID
  end.

Definition DeriveGroupName (tag : string) : string :=
  if String.eqb tag "" then "default" else toKebabCase tag.

Definition DeriveFlagName (paramName in_ : string) : string :=
  let name :=
    if String.eqb in_ "header" && HasPrefix (strings_ToUpper paramName) "X-"
    then drop 2 paramName else paramName in
  toKebabCase name.

Definition ParseCommandPath (name : string) : list string :=
  List.map toKebabCase (Fields name).
End Naming.

Section Build.
Context `{UnicodeTables} `{GoTypes}.

Definition buildParamPlan (p : Spec.Param.t) : ParamPlan.t :=
  let cli := Spec.Param.Cli p in
  {| ParamPlan.Name := Spec.Param.Name p;
     ParamPlan.FlagName :=
       match cli with
       | Some c =>
         if negb (String.eqb (Spec.ParamCliOverrides.Flag c) "")
         then Spec.ParamCliOverrides.Flag c
         else DeriveFlagName (Spec.Param.Name p) (Spec.Param.In p)
       | None => DeriveFlagName (Spec.Param.Name p) (Spec.Param.In p)
       end;
     ParamPlan.Shorthand := from_option Spec.ParamCliOverrides.Shorthand "" cli;
     ParamPlan.Type' := Spec.Param.Type' p;
     ParamPlan.Format := Spec.Param.Format p;
     ParamPlan.Required := Spec.Param.Required p;
     ParamPlan.Default := Spec.Param.Default p;
     ParamPlan.Min := Spec.Param.Min p;
     ParamPlan.Max := Spec.Param.Max p;
     ParamPlan.Description := Spec.Param.Description p;
     ParamPlan.EnvVar := from_option Spec.ParamCliOverrides.Env "" cli;
     ParamPlan.ConfigKey := from_option Spec.ParamCliOverrides.ConfigKey "" cli;
     ParamPlan.In := Spec.Param.In p |}.

(** The first loop of [buildOpPlan] over [op.Params]: the accumulators
    are [pathParams] and [otherParams]. *)
Definition splitParams (params : list Spec.Param.t)
  : list Spec.Param.t * list Spec.Param.t :=
  fold_left (λ acc p,
             if String.eqb (Spec.Param.In p) "path"
             then (acc.1 ++ [p], acc.2) else (acc.1, acc.2 ++ [p]))
            params ([], []).

(** [isPositional] of the second loop. *)
Definition isPositional (p : Spec.Param.t) : bool :=
  match Spec.Param.Cli p with
  | Some c => from_option id true (Spec.ParamCliOverrides.Positional c)
  | None => true
  end.

(** The second loop, over [pathParams]: the accumulators are
    [opPlan.Positionals] and [opPlan.Flags]. *)
Definition placePathParams (pathParams : list Spec.Param.t)
  : list ParamPlan.t * list ParamPlan.t :=
  fold_left (λ acc p,
             let paramPlan := buildParamPlan p in
             if isPositional p
             then (acc.1 ++ [paramPlan], acc.2) else (acc.1, acc.2 ++ [paramPlan]))
            pathParams ([], []).

(** The third loop, over [otherParams], appends to [opPlan.Flags]. *)
Definition appendFlags (flags : list ParamPlan.t) (otherParams : list Spec.Param.t)
  : list ParamPlan.t :=
  fold_left (λ acc p, acc ++ [buildParamPlan p]) otherParams flags.

(** The command path of [buildOpPlan].  [opPlan.CommandPath[0] = ...]
    panics on an empty path (an x-cli name of white space only):
    [None] is that panic. *)
Definition commandPath (groupName : string) (op : Spec.Operation.t)
  : option (list string) :=
  let derived :=
    match Spec.Operation.Cli op with
    | Some c =>
      if negb (String.eqb (Spec.CliOverrides.Name c) "")
      then ParseCommandPath (Spec.CliOverrides.Name c)
      else [DeriveGroupName groupName; DeriveCommandName (Spec.Operation.OperationID op)]
    | None =>
      [DeriveGroupName groupName; DeriveCommandName (Spec.Operation.OperationID op)]
    end in
  match Spec.Operation.Cli op with
  | Some c =>
    if negb (String.eqb (Spec.CliOverrides.Group c) "")
    then match derived with
         | [] => None
         | _ :: rest => Some (DeriveGroupName (Spec.CliOverrides.Group c) :: rest)
         end
    else Some derived
  | None => Some derived
  end.

Definition buildOpPlan (groupName : string) (op : Spec.Operation.t)
  : option OpPlan.t :=
  path ← commandPath groupName op;
  let '(pathParams, otherParams) := splitParams (Spec.Operation.Params op) in
  let '(positionals, flags) := placePathParams pathParams in
  Some {| OpPlan.CommandPath := path;
          OpPlan.Method := Spec.Operation.Method op;
          OpPlan.Path := Spec.Operation.Path op;
          OpPlan.OperationID := Spec.Operation.OperationID op;
          OpPlan.Summary := Spec.Operation.Summary op;
          OpPlan.Description := Spec.Operation.Description op;
          OpPlan.Positionals := positionals;
          OpPlan.Flags := appendFlags flags otherParams;
          OpPlan.HasJSONBody := Spec.HasJSONBody op;
          OpPlan.IsEventStream := Spec.HasEventStream op;
          OpPlan.Hidden := from_option Spec.CliOverrides.Hidden false (Spec.Operation.Cli op);
          OpPlan.Aliases := from_option Spec.CliOverrides.Aliases [] (Spec.Operation.Cli op) |}.

(** [buildGroupPlan]; a panic of [buildOpPlan] is a panic of the group. *)
Definition buildGroupPlan (name : string) (ops : list Spec.Operation.t)
  : option GroupPlan.t :=
  opPlans ← mapM (buildOpPlan name) ops;
  Some {| GroupPlan.Name := DeriveGroupName name;
          GroupPlan.Description := "";
          GroupPlan.Operations := opPlans |}.

(** The key of an operation in [groups]: its tag, [default] for an empty
    tag. *)
Definition tagKey (op : Spec.Operation.t) : string :=
  if String.eqb (Spec.Operation.Tag op) "" then "default" else Spec.Operation.Tag op.

(** The first loop of [Build]: [groups[tag] = append(groups[tag], op)]. *)
Definition groupByTag (ops : list Spec.Operation.t)
  : gmap string (list Spec.Operation.t) :=
  fold_left (λ groups op,
             let tag := tagKey op in
             <[tag := default [] (groups !! tag) ++ [op]]> groups)
            ops ∅.

(** [sort.Strings]: the sorted permutation for the byte-wise order. *)
Definition sortStrings (l : list string) : list string :=
  merge_sort String.le l.

(** [Build].  [rangeOrder] is the order in which
    [for name := range groups] yields the keys of [groups]. *)
Definition Build (s : Spec.t) (appName moduleName : string)
           (rangeOrder : list string) : option t :=
  let groups := groupByTag (Spec.Operations s) in
  let groupNames := sortStrings rangeOrder in
  groupPlans ← mapM (λ groupName,
                     buildGroupPlan groupName (default [] (groups !! groupName)))
                    groupNames;
  Some {| AppName := appName; ModuleName := moduleName; Groups := groupPlans |}.

(** An order in which a [range] over [m] can yield its keys. *)
Definition keysInSomeOrder {V} (m : gmap string V) (l : list string) : Prop :=
  l ≡ₚ (map_to_list m).*1.
End Build.

End Plan.


(** ** The generated runtime *)

Module Runtime.
Import Go.

(** A Go [error] is modelled by its message. *)
Definition error := string.

Inductive Result (A : Type) :=
| Ok (a : A)
| Err (e : error).
Arguments Ok {A} a.
Arguments Err {A} e.

(** *** net/url and net/http *)

(** [url.shouldEscape] for the modes [encodePathSegment] and
    [encodeQueryComponent]. *)
Definition alnum (b : Z) : bool :=
  between 0x61 0x7A b || between 0x41 0x5A b || between 0x30 0x39 b.

Definition isOneOf (chars : string) (c : ascii) : bool :=
  existsb (Ascii.eqb c) (list_ascii_of_string chars).

Definition shouldEscapePathSegment (c : ascii) : bool :=
  if alnum (code c) then false
  else if isOneOf "-_.~" c then false
  else if isOneOf "$&+,/:;=?@" c then isOneOf "/;,?" c
  else true.

Definition shouldEscapeQueryComponent (c : ascii) : bool :=
  if alnum (code c) then false
  else if isOneOf "-_.~" c then false
  else true.

Definition upperhex (n : Z) : ascii :=
  if n <? 10 then chr (0x30 + n) else chr (0x41 + n - 10).

Definition percent (c : ascii) : string :=
  String "%" (String (upperhex (Z.shiftr (code c) 4))
                     (str1 (upperhex (Z.land (code c) 15)))).

Fixpoint PathEscape (s : string) : string :=
  match s with
  | EmptyString => EmptyString
  | String c s' =>
    (if shouldEscapePathSegment c then percent c else str1 c) +:+ PathEscape s'
  end.

Fixpoint QueryEscape (s : string) : string :=
  match s with
  | EmptyString => EmptyString
  | String c s' =>
    (if Ascii.eqb c " " then "+"
     else if shouldEscapeQueryComponent c then percent c else str1 c)
    +:+ QueryEscape s'
  end.

(** [url.Values.Encode] of the values that hold the one value of each
    key of [m]: the pairs in the sorted order of the keys. *)
Definition Encode (m : gmap string string) : string :=
  Join (List.map (λ k, QueryEscape k +:+ "=" +:+ QueryEscape (default "" (m !! k)))
                 (merge_sort String.le (map_to_list m).*1))
       "&".

(** [textproto.validHeaderFieldByte]: the token characters of RFC 7230. *)
Definition validHeaderFieldByte (c : ascii) : bool :=
  alnum (code c) || isOneOf "!#$%&'*+-.^_`|~" c.

(** The canonical form of a header key of valid bytes: upper case for
    the first letter and for a letter after a hyphen, lower case for the
    other letters. *)
Fixpoint canonicalize (upper : bool) (s : string) : string :=
  match s with
  | EmptyString => EmptyString
  | String c s' =>
    let b := code c in
    let c' := if upper && between 0x61 0x7A b then chr (b - 32)
              else if negb upper && between 0x41 0x5A b then chr (b + 32)
              else c in
    String c' (canonicalize (Ascii.eqb c' "-") s')
  end.

(** [textproto.CanonicalMIMEHeaderKey]: a key with a byte that is not
    valid in a header field name is returned unchanged. *)
Definition CanonicalMIMEHeaderKey (s : string) : string :=
  if Go.forallb validHeaderFieldByte s then canonicalize true s else s.

(** [http.Header] and its method [Set]. *)
Definition HeaderSet (h : gmap string (list string)) (key value : string)
  : gmap string (list string) :=
  <[CanonicalMIMEHeaderKey key := [value]]> h.

(** [*http.Request], as far as [Build] fills it. *)
Module HttpRequest.
Record t := {
  Method : string;
  URL : string;
  Header : gmap string (list string);
  Body : option string
}.
End HttpRequest.

(** [http.NewRequestWithContext] validates the context, the method and
    the URL; the error it returns for a method and a URL, if any, is a
    parameter. *)
Class HTTPLib := { newRequestError : string → string → option error }.

(** *** internal/gen/runtime/request.go *)

Module Request.
Record t := {
  Method : string;
  Path : string;
  PathParams : gmap string string;
  QueryParams : gmap string string;
  Headers : gmap string string;
  Body : option string
}.
End Request.

Definition NewRequest (method path : string) : Request.t :=
  {| Request.Method := method; Request.Path := path;
     Request.PathParams := ∅; Request.QueryParams := ∅;
     Request.Headers := ∅; Request.Body := None |}.

Definition SetPathParam (r : Request.t) (name value : string) : Request.t :=
  {| Request.Method := Request.Method r; Request.Path := Request.Path r;
     Request.PathParams := <[name := value]> (Request.PathParams r);
     Request.QueryParams := Request.QueryParams r;
     Request.Headers := Request.Headers r; Request.Body := Request.Body r |}.

Definition SetQueryParam (r : Request.t) (name value : string) : Request.t :=
  {| Request.Method := Request.Method r; Request.Path := Request.Path r;
     Request.PathParams := Request.PathParams r;
     Request.QueryParams := <[name := value]> (Request.QueryParams r);
     Request.Headers := Request.Headers r; Request.Body := Request.Body r |}.

Definition SetHeader (r : Request.t) (name value : string) : Request.t :=
  {| Request.Method := Request.Method r; Request.Path := Request.Path r;
     Request.PathParams := Request.PathParams r;
     Request.QueryParams := Request.QueryParams r;
     Request.Headers := <[name := value]> (Request.Headers r);
     Request.Body := Request.Body r |}.

Definition SetBody (r : Request.t) (body : option string) : Request.t :=
  {| Request.Method := Request.Method r; Request.Path := Request.Path r;
     Request.PathParams := Request.PathParams r;
     Request.QueryParams := Request.QueryParams r;
     Request.Headers := Request.Headers r; Request.Body := body |}.

(** [pathParamRegex.FindAllStringSubmatch(path, -1)], the first group of
    every match of [\{([^}]+)\}]: the leftmost matches, which do not
    overlap.  After an opening brace, [inside] holds the bytes read since;
    a closing brace ends a match when at least one byte was read. *)
Fixpoint findPathParams (inside : option string) (s : string) : list string :=
  match s with
  | EmptyString => []
  | String c s' =>
    match inside with
    | None =>
      if Ascii.eqb c "{" then findPathParams (Some EmptyString) s'
      else findPathParams None s'
    | Some name =>
      if Ascii.eqb c "}"
      then match name with
           | EmptyString => findPathParams None s'
           | _ => name :: findPathParams None s'
           end
      else findPathParams (Some (name +:+ str1 c)) s'
    end
  end.

Definition pathParamNames (path : string) : list string :=
  findPathParams None path.

(** The validation loop of [Build]: [missing]. *)
Definition missingParams (r : Request.t) : list string :=
  fold_left (λ missing paramName,
             match Request.PathParams r !! paramName with
             | Some _ => missing
             | None => missing ++ [paramName]
             end)
            (pathParamNames (Request.Path r)) [].

Definition missingMessage (missing : list string) : error :=
  "missing required path parameter(s): " +:+ Join missing ", ".

(** [Build].  [pathOrder] and [headerOrder] are the orders in which the
    [range] loops over [r.PathParams] and [r.Headers] yield their
    entries. *)
Definition Build `{HTTPLib} (r : Request.t) (baseURL : string)
           (pathOrder headerOrder : list (string * string))
  : Result HttpRequest.t :=
  let missing := missingParams r in
  if (0 <? length missing)%nat then Err (missingMessage missing)
  else
    let path :=
      fold_left (λ path nv, ReplaceAll path ("{" +:+ nv.1 +:+ "}") (PathEscape nv.2))
                pathOrder (Request.Path r) in
    let fullURL := TrimSuffix baseURL "/" +:+ path in
    let fullURL :=
      if (0 <? size (Request.QueryParams r))%nat
      then fullURL +:+ "?" +:+ Encode (Request.QueryParams r)
      else fullURL in
    match newRequestError (Request.Method r) fullURL with
    | Some err => Err ("failed to create request: " +:+ err)
    | None =>
      let header := fold_left (λ h nv, HeaderSet h nv.1 nv.2) headerOrder ∅ in
      let header :=
        match Request.Body r with
        | Some _ => HeaderSet header "Content-Type" "application/json"
        | None => header
        end in
      Ok {| HttpRequest.Method :=
              if String.eqb (Request.Method r) "" then "GET" else Request.Method r;
            HttpRequest.URL := fullURL;
            HttpRequest.Header := header;
            HttpRequest.Body := Request.Body r |}
    end.

(** An order in which a [range] over [m] can yield its entries. *)
Definition entriesInSomeOrder (m : gmap string string) (l : list (string * string)) : Prop :=
  l ≡ₚ map_to_list m.

(** *** encoding/json *)

(** [json.Unmarshal] into an [interface{}] and [json.MarshalIndent] are
    parameters. *)
Class JSONLib := {
  JSON : Type;
  Unmarshal : string → option JSON;
  MarshalIndent : JSON → string → string → option string
}.

(** An [io.Reader] that is read to its end: what it delivers, and the
    error other than [io.EOF] that ends it, if any. *)
Module Reader.
Record t := { content : string; failure : option error }.
End Reader.

(** [fmt.Fprintln(w, s)] on a writer that holds [w]. *)
Definition Fprintln (w s : string) : string := w +:+ s +:+ nl.

(** *** internal/runtime_skel/output.go *)

(** [*http.Response], as far as [handleResponse] reads it. *)
Module Response.
Record t := { StatusCode : Z; Status : string; Body : Reader.t }.
End Response.

(** The two writers of [handleResponse]: [out] and [os.Stderr]. *)
Module Sinks.
Record t := { out : string; stderr : string }.
End Sinks.

Section Output.
Context `{JSONLib}.

Definition isJSON (data : string) : bool :=
  match Unmarshal data with Some _ => true | None => false end.

Definition prettyPrint (data out : string) : string :=
  match Unmarshal data with
  | None => Fprintln out data
  | Some parsed =>
    match MarshalIndent parsed "" "  " with
    | None => Fprintln out data
    | Some pretty => Fprintln out pretty
    end
  end.

(** What both [handleResponse] and [handleSSE] do with a payload. *)
Definition render (data out : string) : string :=
  if isJSON data then prettyPrint data out else Fprintln out data.

Definition handleResponse (resp : Response.t) (w : Sinks.t) : Sinks.t * option error :=
  let body := Reader.content (Response.Body resp) in
  match Reader.failure (Response.Body resp) with
  | Some err => (w, Some ("failed to read response body: " +:+ err))
  | None =>
    if (Response.StatusCode resp <? 200) || (300 <=? Response.StatusCode resp) then
      let e := Sinks.stderr w +:+ "Error: HTTP " +:+ pretty (Response.StatusCode resp)
               +:+ " " +:+ Response.Status resp +:+ nl in
      let e := if (0 <? String.length body)%nat then Fprintln e body else e in
      ({| Sinks.out := Sinks.out w; Sinks.stderr := e |},
       Some ("request failed with status " +:+ pretty (Response.StatusCode resp)))
    else
      ({| Sinks.out := if (0 <? String.length body)%nat
                       then render body (Sinks.out w) else Sinks.out w;
          Sinks.stderr := Sinks.stderr w |}, None)
  end.
End Output.

(** *** bufio.Scanner with the split function [ScanLines] *)

Definition MaxScanTokenSize : Z := 64 * 1024.
Definition ErrTooLong : error := "bufio.Scanner: token too long".

(** The input cut at its newlines; what follows the last newline is a
    line when it is not empty. *)
Fixpoint splitLines (cur s : string) : list string :=
  match s with
  | EmptyString => if String.eqb cur "" then [] else [cur]
  | String c s' =>
    if Ascii.eqb c "010" then cur :: splitLines "" s'
    else splitLines (cur +:+ str1 c) s'
  end.

(** [dropCR]: a token loses one trailing carriage return. *)
Definition dropCR (line : string) : string := TrimSuffix line (str1 "013").

(** The tokens [Scan] delivers.  The buffer of a [Scanner] grows to
    [MaxScanTokenSize] bytes: a line of that many bytes or more (its newline
    not counted) fills it before a token is found, and [Scan] stops
    with [ErrTooLong].  (The reader is taken to report its end on a read
    of its own.) *)
Fixpoint scanTokens (raw : list string) : list string * bool :=
  match raw with
  | [] => ([], false)
  | l :: rest =>
    if MaxScanTokenSize <=? Z.of_nat (String.length l) then ([], true)
    else let '(tokens, tooLong) := scanTokens rest in (dropCR l :: tokens, tooLong)
  end.

(** The tokens of [for scanner.Scan() { scanner.Text() }] and the value of
    [scanner.Err()] after the loop.  A read error ends the input as its
    end does; it is reported unless [ErrTooLong] came first. *)
Definition Scan (reader : Reader.t) : list string * option error :=
  let '(tokens, tooLong) := scanTokens (splitLines "" (Reader.content reader)) in
  (tokens, if tooLong then Some ErrTooLong else Reader.failure reader).

(** *** internal/runtime_skel/sse.go *)

Definition MaxSSEEventSize : Z := 10 * 1024 * 1024.

Definition ErrSSEEventTooLarge : error :=
  "SSE event data exceeds maximum allowed size".

Definition isEventStream (contentType : string) : bool :=
  Contains contentType "text/event-stream".

(** The variables of [handleSSE]: the builder [dataBuffer] and what was
    written to [out]. *)
Module SSE.
Record t := { dataBuffer : string; out : string }.
End SSE.

(** The outcome of one round of the loop of [handleSSE]. *)
Inductive Round :=
| Continue (st : SSE.t)
| Return (st : SSE.t) (err : error).

Section SSEDecoder.
Context `{JSONLib}.

Definition blen (st : SSE.t) : Z := Z.of_nat (String.length (SSE.dataBuffer st)).

(** The event held by [dataBuffer] is written, if there is one. *)
Definition emit (st : SSE.t) : string :=
  if 0 <? blen st then
    let data := TrimSpace (SSE.dataBuffer st) in
    if negb (String.eqb data "") then render data (SSE.out st) else SSE.out st
  else SSE.out st.

(** The body of the loop of [handleSSE] for one line. *)
Definition sseLine (line : string) (st : SSE.t) : Round :=
  if String.eqb line "" then
    if 0 <? blen st
    then Continue {| SSE.dataBuffer := ""; SSE.out := emit st |}
    else Continue st
  else if HasPrefix line ":" then Continue st
  else if HasPrefix line "data:" then
    let data := TrimSpace (TrimPrefix line "data:") in
    let newSize := blen st + Z.of_nat (String.length data) + 1 in
    if MaxSSEEventSize <? newSize then Return st ErrSSEEventTooLarge
    else
      let buf := if 0 <? blen st then SSE.dataBuffer st +:+ nl else SSE.dataBuffer st in
      Continue {| SSE.dataBuffer := buf +:+ data; SSE.out := SSE.out st |}
  else if HasPrefix line "event:" || HasPrefix line "id:" || HasPrefix line "retry:"
  then Continue st
  else Continue st.

(** The loop of [handleSSE] over the lines of the scanner. *)
Fixpoint sseLoop (lines : list string) (st : SSE.t) : Round :=
  match lines with
  | [] => Continue st
  | line :: rest =>
    match sseLine line st with
    | Continue st' => sseLoop rest st'
    | Return st' err => Return st' err
    end
  end.

(** [handleSSE]: what [out] holds when it returns, and its result. *)
Definition handleSSE (reader : Reader.t) (out : string) : string * option error :=
  let '(lines, scanErr) := Scan reader in
  match sseLoop lines {| SSE.dataBuffer := ""; SSE.out := out |} with
  | Return st err => (SSE.out st, Some err)
  | Continue st =>
    (emit st,
     match scanErr with
     | Some err => Some ("error reading SSE stream: " +:+ err)
     | None => None
     end)
  end.
End SSEDecoder.

(** *** internal/runtime_skel/config.go *)

Module Config.
Record t := { BaseURL : string; Headers : gmap string string }.
End Config.

(** A file: its mode bits, and its content when it can be read. *)
Module File.
Record t := { mode : Z; data : option string }.
End File.

(** What [LoadConfig] reads of the process and of the file system: the
    environment, the result of [os.UserHomeDir] and the files [os.Stat]
    finds. *)
Module OS.
Record t := {
  environ : gmap string string;
  homeDir : option string;
  files : gmap string File.t
}.
End OS.

(** [filepath.Join] and [yaml.Unmarshal] into a [Config] (which fills the
    fields the document sets, also when it returns an error) are
    parameters. *)
Class ConfigLib := {
  filepath_Join : list string → string;
  yaml_Unmarshal : string → Config.t → Config.t * option error
}.

(** [fmt]'s verb [%o]. *)
Fixpoint octal_go (fuel : nat) (n : Z) (acc : string) : string :=
  match fuel with
  | O => acc
  | S fuel' =>
    let acc' := String (chr (0x30 + n mod 8)) acc in
    if n / 8 =? 0 then acc' else octal_go fuel' (n / 8) acc'
  end.

Definition octal (n : Z) : string := octal_go (S (Z.to_nat n)) n "".

(** [fs.ModePerm], octal 777, and the mask of [loadConfigFile], octal 044. *)
Definition ModePerm : Z := 511.
Definition groupOtherRead : Z := 36.

Section ConfigResolver.
Context `{UnicodeTables} `{ConfigLib}.

Definition Getenv (os : OS.t) (key : string) : string :=
  default "" (OS.environ os !! key).

Definition statOk (os : OS.t) (path : string) : bool :=
  match OS.files os !! path with Some _ => true | None => false end.

Definition getConfigPath (os : OS.t) (appName : string) : string :=
  let configHome :=
    if String.eqb (Getenv os "XDG_CONFIG_HOME") ""
    then match OS.homeDir os with
         | Some home => Some (filepath_Join [home; ".config"])
         | None => None
         end
    else Some (Getenv os "XDG_CONFIG_HOME") in
  match configHome with
  | None => ""
  | Some configHome =>
    let configPath := filepath_Join [configHome; appName; "config.yaml"] in
    if statOk os configPath then configPath
    else
      let configPath := filepath_Join [configHome; appName; "config.yml"] in
      if statOk os configPath then configPath else ""
  end.

(** [loadConfigFile]: the configuration after the call, what was
    written to [DefaultWarningWriter], and the result (the error of
    [os.Stat] or of [os.ReadFile], which [LoadConfig] drops, or that of
    [yaml.Unmarshal]). *)
Definition loadConfigFile (os : OS.t) (path : string) (config : Config.t)
  : Config.t * string * option error :=
  match OS.files os !! path with
  | None => (config, "", Some ("stat " +:+ path +:+ ": no such file or directory"))
  | Some info =>
    let mode := Z.land (File.mode info) ModePerm in
    let warning :=
      if negb (Z.land mode groupOtherRead =? 0)
      then "Warning: config file " +:+ path +:+ " has insecure permissions "
           +:+ octal mode +:+ ". Consider running: chmod 600 " +:+ path +:+ nl
      else "" in
    match File.data info with
    | None => (config, warning, Some ("open " +:+ path +:+ ": permission denied"))
    | Some data =>
      let '(config', err) := yaml_Unmarshal data config in (config', warning, err)
    end
  end.

(** The configuration of [LoadConfig] after the file was tried, and the
    warnings. *)
Definition fileConfig (os : OS.t) (appName : string) : Config.t * string :=
  let config := {| Config.BaseURL := ""; Config.Headers := ∅ |} in
  let configPath := getConfigPath os appName in
  if negb (String.eqb configPath "")
  then (loadConfigFile os configPath config).1
  else (config, "").

(** [LoadConfig]: the configuration (the error is always [nil]) and what
    was written to [DefaultWarningWriter]. *)
Definition LoadConfig (os : OS.t) (appName : string) : Config.t * string :=
  let '(config, warnings) := fileConfig os appName in
  let envPrefix := strings_ToUpper appName +:+ "_" in
  let baseURL := Getenv os (envPrefix +:+ "BASE_URL") in
  (if negb (String.eqb baseURL "")
   then {| Config.BaseURL := baseURL; Config.Headers := Config.Headers config |}
   else config,
   warnings).

Definition GetEnvOrConfig (os : OS.t) (envVar configKey defaultValue : string)
           (config : option Config.t) : string :=
  if negb (String.eqb (Getenv os envVar) "") then Getenv os envVar
  else
    match config with
    | Some c =>
      if negb (String.eqb configKey "")
      then default defaultValue (Config.Headers c !! configKey)
      else defaultValue
    | None => defaultValue
    end.
End ConfigResolver.

(** *** internal/runtime_skel/body.go *)

(** [os.ReadFile]: the content of the file, or the error of [os.Open]
    for a file that does not exist or cannot be read. *)
Definition ReadFile (os : OS.t) (path : string) : Result string :=
  match OS.files os !! path with
  | None => Err ("open " +:+ path +:+ ": no such file or directory")
  | Some info =>
    match File.data info with
    | Some data => Ok data
    | None => Err ("open " +:+ path +:+ ": permission denied")
    end
  end.

(** [LoadBody]: the bytes, [None] for the nil slice, and the error.
    [stdin] is [os.Stdin]; [io.ReadAll] returns what it has read together
    with the error that ended the reading. *)
Definition LoadBody (os : OS.t) (stdin : Reader.t) (data : string)
  : option string * option error :=
  if String.eqb data "" then (None, None)
  else if HasPrefix data "@" then
    let path := drop 1 data in
    if String.eqb path "-" then (Some (Reader.content stdin), Reader.failure stdin)
    else
      match ReadFile os path with
      | Err err =>
        (None, Some ("failed to read body from file " +:+ path +:+ ": " +:+ err))
      | Ok content => (Some content, None)
      end
  else (Some data, None).

(** *** internal/runtime_skel/runtime.go *)

(** [*http.Response]: the header, which [Do] reads, and the fields
    [handleResponse] reads. *)
Module HttpResponse.
Record t := { Header : gmap string (list string); Response : Response.t }.
End HttpResponse.

(** [http.Header.Get]: the first value of the canonical key, or the
    empty string. *)
Definition HeaderGet (h : gmap string (list string)) (key : string) : string :=
  match h !! CanonicalMIMEHeaderKey key with
  | Some (v :: _) => v
  | _ => ""
  end.

(** [Runtime].  [HTTPClient] is what the method [Do] of the client makes
    of a request: a response, or the error of the transport.  The writer
    [Output] is the first of the two [Sinks] of [Do].  The mutex
    [headersMu] orders concurrent calls and has no part in one call. *)
Module Client.
Record t := {
  BaseURL : string;
  HTTPClient : HttpRequest.t → Result HttpResponse.t;
  Headers : gmap string string;
  Timeout : Z
}.
End Client.

(** [New]; [transport] is the client [http.Client{Timeout: timeout}]. *)
Definition New (transport : Z → HttpRequest.t → Result HttpResponse.t)
           (baseURL : string) (timeout : Z) : Client.t :=
  {| Client.BaseURL := baseURL; Client.HTTPClient := transport timeout;
     Client.Headers := ∅; Client.Timeout := timeout |}.

Definition AddHeader (r : Client.t) (key value : string) : Client.t :=
  {| Client.BaseURL := Client.BaseURL r; Client.HTTPClient := Client.HTTPClient r;
     Client.Headers := <[key := value]> (Client.Headers r);
     Client.Timeout := Client.Timeout r |}.

(** What a call of [Do] leaves: the request handed to the client, if
    one was, the two writers, and the result. *)
Module Outcome.
Record t := { sent : option HttpRequest.t; sinks : Sinks.t; err : option error }.
End Outcome.

Section Do.
Context `{HTTPLib} `{JSONLib}.

(** The loop of [Do] over [r.Headers], in the order [runtimeOrder]. *)
Definition addRuntimeHeaders (httpReq : HttpRequest.t)
           (runtimeOrder : list (string * string)) : HttpRequest.t :=
  {| HttpRequest.Method := HttpRequest.Method httpReq;
     HttpRequest.URL := HttpRequest.URL httpReq;
     HttpRequest.Header :=
       fold_left (λ h kv, HeaderSet h kv.1 kv.2) runtimeOrder (HttpRequest.Header httpReq);
     HttpRequest.Body := HttpRequest.Body httpReq |}.

(** [Do].  [pathOrder], [headerOrder] and [runtimeOrder] are the orders
    of the [range] loops over [req.PathParams], [req.Headers] and
    [r.Headers]; [w] holds what [r.Output] and [os.Stderr] hold before the
    call. *)
Definition Do (r : Client.t) (req : Request.t)
           (pathOrder headerOrder runtimeOrder : list (string * string)) (w : Sinks.t)
  : Outcome.t :=
  match Build req (Client.BaseURL r) pathOrder headerOrder with
  | Err err =>
    {| Outcome.sent := None; Outcome.sinks := w;
       Outcome.err := Some ("failed to build request: " +:+ err) |}
  | Ok httpReq =>
    let httpReq := addRuntimeHeaders httpReq runtimeOrder in
    match Client.HTTPClient r httpReq with
    | Err err =>
      {| Outcome.sent := Some httpReq; Outcome.sinks := w;
         Outcome.err := Some ("request failed: " +:+ err) |}
    | Ok resp =>
      let contentType := HeaderGet (HttpResponse.Header resp) "Content-Type" in
      if isEventStream contentType then
        let '(out, err) :=
          handleSSE (Response.Body (HttpResponse.Response resp)) (Sinks.out w) in
        {| Outcome.sent := Some httpReq;
           Outcome.sinks := {| Sinks.out := out; Sinks.stderr := Sinks.stderr w |};
           Outcome.err := err |}
      else
        let '(w', err) := handleResponse (HttpResponse.Response resp) w in
        {| Outcome.sent := Some httpReq; Outcome.sinks := w'; Outcome.err := err |}
    end
  end.
End Do.
End Runtime.

(** ** The generator: the names and texts of internal/gen/generate.go *)

Module Gen.
Import Go.

Section Names.
Context `{UnicodeTables}.

(** [runes := []rune(s); runes[0] = f(runes[0]); string(runes)], which
    the code runs on a string that is not empty, and so has a rune. *)
Definition mapFirst (f : Z → Z) (s : string) : string :=
  match runes s with
  | r :: rest => ofRunes (f r :: rest)
  | [] => s
  end.

Definition capitalize (s : string) : string :=
  if (String.length s =? 0)%nat then s else mapFirst ToUpper s.

(** The loops of [toVarName] over [parts]. *)
Definition capitalizeParts (parts : list string) : list string :=
  List.map (λ part, if (0 <? String.length part)%nat then capitalize part else part) parts.

Definition toVarName (s : string) : string :=
  let parts := capitalizeParts (Split s "-") in
  let result := Join parts "" in
  let parts := capitalizeParts (Split result "_") in
  let result := Join parts "" in
  if (0 <? String.length result)%nat then mapFirst ToLower result else result.

End Names.

(** The backslash, written by its code. *)
Definition backslash : string := str1 "092".

(** [escapeDescription]: the backslashes are doubled, then a backslash
    is put before every double quote. *)
Definition escapeDescription (s : string) : string :=
  let s := ReplaceAll s backslash (backslash +:+ backslash) in
  ReplaceAll s quote (backslash +:+ quote).

End Gen.

(** * The properties of the specification *)

(** ** Instances of the tables of [unicode] *)

Module Tables.
Import Go.

(** Tables with no entry, for inputs that do not reach them. *)
Definition noTables : UnicodeTables :=
  {| upperTable := λ _, false; toLowerTable := λ r, r; toUpperTable := λ r, r |}.

(** An excerpt of the tables of Go's [unicode] package: U+2115, the
    double-struck capital N, is in [unicode.Upper] (its category is Lu) and
    [unicode.CaseRanges] has no entry for it, so [unicode.ToLower] returns
    it unchanged. *)
Definition lettersExcerpt : UnicodeTables :=
  {| upperTable := λ r, r =? 0x2115; toLowerTable := λ r, r; toUpperTable := λ r, r |}.

End Tables.

(** ** The plan: statements *)

Module PlanSpec.
Import Go Plan.

(** A byte of a kebab-case name: an ASCII byte that is no upper-case
    letter, no underscore and no space. *)
Definition kebabByte (c : ascii) : bool :=
  (code c <? RuneSelf) && negb (between 0x41 0x5A (code c))
  && negb (code c =? 0x5F) && negb (code c =? 0x20).

(** Lower kebab case, as the naming rules of the specification describe
    it: no upper-case letter, underscore or space, no run of hyphens, no
    hyphen at either end. *)
Record lowerKebab (s : string) : Prop := {
  kebab_bytes : Go.forallb kebabByte s = true;
  kebab_single : Contains s "--" = false;
  kebab_first : HasPrefix s "-" = false;
  kebab_last : Go.last s ≠ Some "-"%char
}.

(** [utf8.ValidRune]: a Unicode scalar value, a rune that has a UTF-8
    encoding of its own. *)
Definition ValidRune (r : Z) : bool := between 0 0xD7FF r || between 0xE000 MaxRune r.

Section Runes.
Context `{UnicodeTables}.

(** A rune the loop of [toKebabCase] copies to its result: a scalar value
    that is no upper-case letter, no underscore and no space. *)
Definition kebabRune (r : Z) : bool :=
  ValidRune r && negb (IsUpper r) && negb (r =? 0x5F) && negb (r =? 0x20).

(** Every upper-case rune of [s] has a lower-case form, which is such a
    rune. *)
Definition lowersToKebab (s : string) : bool :=
  List.forallb (λ x, implb (IsUpper (rune x)) (kebabRune (ToLower (rune x)))) (range s).

(** A string that is the encoding of such runes. *)
Definition kebabEncoded (t : string) : Prop :=
  ∃ ws, Forall (λ w, kebabRune w = true) ws ∧ t = ofRunes ws.

End Runes.

Section Params.
Context `{Spec.GoTypes}.

(** The location of the parameter is [path]. *)
Definition isPath (p : Spec.Param.t) : bool := String.eqb (Spec.Param.In p) "path".

(** The parameters [buildOpPlan] emits as positionals, and those it emits
    as flags after them: first the path parameters forced to flags, then
    the others. *)
Definition positionalParam (p : Spec.Param.t) : bool := isPath p && isPositional p.
Definition forcedFlagParam (p : Spec.Param.t) : bool := isPath p && negb (isPositional p).

(** The override forces the parameter to a flag: its tri-state
    [Positional] is set, and set to false. *)
Definition forcedToFlag (p : Spec.Param.t) : Prop :=
  match Spec.Param.Cli p with
  | Some c => Spec.ParamCliOverrides.Positional c = Some false
  | None => False
  end.

#[global] Instance forcedToFlag_dec p : Decision (forcedToFlag p).
Proof. unfold forcedToFlag. destruct (Spec.Param.Cli p); apply _. Defined.

(** White space only: every rune is one of [unicode.IsSpace]. *)
Definition blank (s : string) : bool :=
  List.forallb (λ x, IsSpace (rune x)) (range s).

(** An x-cli override of an operation that sets a group and a name that
    is not empty but blank. *)
Definition blankNameWithGroup (op : Spec.Operation.t) : bool :=
  match Spec.Operation.Cli op with
  | Some c =>
    negb (String.eqb (Spec.CliOverrides.Name c) "")
    && blank (Spec.CliOverrides.Name c)
    && negb (String.eqb (Spec.CliOverrides.Group c) "")
  | None => false
  end.

(** The operations of a specification whose tag key is [k], in its
    order. *)
Definition taggedWith (k : string) (ops : list Spec.Operation.t)
  : list Spec.Operation.t :=
  filter (λ op, Plan.tagKey op = k) ops.


End Params.


End PlanSpec.

(** ** The generator: statements *)

Module GenSpec.
Import Go Runtime Gen.

(** An ASCII byte that is none of [seps]. *)
Definition asciiNot (seps : string) (c : ascii) : bool :=
  (code c <? RuneSelf) && negb (isOneOf seps c).

(** The text a Go string literal with the body [s] stands for, as far
    as the escapes of the backslash and of the double quote go: the byte
    after a backslash is taken as it is. *)
Fixpoint unescape (s : string) : string :=
  match s with
  | EmptyString => EmptyString
  | String c s' =>
    if Ascii.eqb c "092"
    then match s' with
         | String d s'' => String d (unescape s'')
         | EmptyString => str1 c
         end
    else String c (unescape s')
  end.

End GenSpec.

(** ** The plan: inputs of the examples *)

Module PlanExamples.
Import Go Plan Tables.

Definition unitTypes : Spec.GoTypes := {| Spec.any := unit; Spec.float64 := unit |}.

Definition pathParam (name : string) (cli : option Spec.ParamCliOverrides.t)
  : @Spec.Param.t unitTypes :=
  {| Spec.Param.Name := name; Spec.Param.In := "path"; Spec.Param.Required := true;
     Spec.Param.Type' := "string"; Spec.Param.Format := "";
     Spec.Param.Default := (tt : @Spec.any unitTypes);
     Spec.Param.Min := None; Spec.Param.Max := None; Spec.Param.Description := "";
     Spec.Param.Cli := cli |}.

Definition queryParam (name : string) : @Spec.Param.t unitTypes :=
  {| Spec.Param.Name := name; Spec.Param.In := "query"; Spec.Param.Required := false;
     Spec.Param.Type' := "integer"; Spec.Param.Format := "";
     Spec.Param.Default := (tt : @Spec.any unitTypes);
     Spec.Param.Min := None; Spec.Param.Max := None; Spec.Param.Description := "";
     Spec.Param.Cli := None |}.

Definition operation (tag path operationID : string)
           (params : list (@Spec.Param.t unitTypes)) : @Spec.Operation.t unitTypes :=
  {| Spec.Operation.Tag := tag; Spec.Operation.Method := "GET";
     Spec.Operation.Path := path; Spec.Operation.OperationID := operationID;
     Spec.Operation.Summary := ""; Spec.Operation.Description := "";
     Spec.Operation.Params := params; Spec.Operation.RequestBody := None;
     Spec.Operation.Responses := []; Spec.Operation.Cli := None |}.

(** The override of the specification: the flag name [org] and
    [positional=false]. *)
Definition orgFlag : Spec.ParamCliOverrides.t :=
  {| Spec.ParamCliOverrides.Flag := "org"; Spec.ParamCliOverrides.Shorthand := "";
     Spec.ParamCliOverrides.Env := ""; Spec.ParamCliOverrides.ConfigKey := "";
     Spec.ParamCliOverrides.Positional := Some false |}.

(** An operation with a query parameter, a path parameter under that
    override and a plain path parameter, and its plan. *)
Definition listRepos : @Spec.Operation.t unitTypes :=
  operation "repos" "/orgs/{orgName}/repos/{repo}" "listRepos"
            [queryParam "page"; pathParam "orgName" (Some orgFlag); pathParam "repo" None].

Definition listReposPlan : @OpPlan.t unitTypes :=
  Eval vm_compute in
    default (@OpPlan.Build_t unitTypes [] "" "" "" "" "" [] [] false false false [])
            (@buildOpPlan noTables unitTypes "repos" listRepos).


(** A specification with the tags [B] and [a]. *)
Definition twoTags : @Spec.t unitTypes :=
  {| Spec.Title := "api"; Spec.Version := "1"; Spec.Description := "";
     Spec.Operations := [operation "B" "/b" "listB" []; operation "a" "/a" "listA" []];
     Spec.GlobalCli := None |}.

(** An operation under an x-cli override that sets the group [admin] and
    a name of one space, and a specification of that operation. *)
Definition blankOverride : Spec.CliOverrides.t :=
  {| Spec.CliOverrides.Name := " "; Spec.CliOverrides.Group := "admin";
     Spec.CliOverrides.Aliases := []; Spec.CliOverrides.Hidden := false |}.

Definition pingBlank : @Spec.Operation.t unitTypes :=
  {| Spec.Operation.Tag := ""; Spec.Operation.Method := "GET";
     Spec.Operation.Path := "/ping"; Spec.Operation.OperationID := "ping";
     Spec.Operation.Summary := ""; Spec.Operation.Description := "";
     Spec.Operation.Params := []; Spec.Operation.RequestBody := None;
     Spec.Operation.Responses := []; Spec.Operation.Cli := Some blankOverride |}.

Definition blankSpec : @Spec.t unitTypes :=
  {| Spec.Title := "api"; Spec.Version := "1"; Spec.Description := "";
     Spec.Operations := [pingBlank]; Spec.GlobalCli := None |}.


(** A name with a rune outside ASCII: caf, U+00E9, Bar. *)
Definition cafeBar : string := "caf" +:+ EncodeRune 0xE9 +:+ "Bar".

End PlanExamples.

(** ** The runtime: statements *)

Module RuntimeSpec.
Import Go Runtime.

(** The name of the environment variable of [LoadConfig]: the application
    name in upper case, then [_BASE_URL]. *)
Definition baseURLVariable `{UnicodeTables} (appName : string) : string :=
  strings_ToUpper appName +:+ "_BASE_URL".

(** *** The decoder as the specification words it

    A blank line is an event boundary; the content of an event is made of
    its [data:] lines, stripped of the prefix, trimmed and joined by a
    newline; it is trimmed, and rendered when it is not empty; the other
    lines are dropped; what remains at the end of the stream is a final
    event. *)

Definition dataLine (line : string) : bool := HasPrefix line "data:".

Definition dataOf (line : string) : string := TrimSpace (TrimPrefix line "data:").






(** *** The accumulator of [handleSSE]

    What [handleSSE] makes of [dataBuffer] for the content [d] of a data
    line, and for the contents of the data lines of an event. *)
Definition appendData (buf d : string) : string :=
  if String.eqb buf "" then d else buf +:+ nl +:+ d.



(** *** The URL of a request *)

(** A byte that ends no path segment: no slash, question mark or hash. *)
Definition segmentSafe (c : ascii) : bool := negb (isOneOf "/?#" c).

(** The query of the URL [Build] makes for [r]. *)
Definition queryPart (r : Request.t) : string :=
  if (0 <? size (Request.QueryParams r))%nat
  then "?" +:+ Encode (Request.QueryParams r) else "".

(** The number of bytes [b] in a string. *)
Fixpoint countByte (b : ascii) (s : string) : nat :=
  match s with
  | EmptyString => O
  | String c s' => ((if Ascii.eqb c b then 1 else 0) + countByte b s')%nat
  end.

(** A name the pattern of the placeholders can match: not empty, and
    without a closing brace. *)
Definition placeholderName (name : string) : Prop :=
  name ≠ "" ∧ Go.forallb (λ c, negb (Ascii.eqb c "}")) name = true.

(** No other header of the map has the canonical name of [name]. *)
Definition soleHeader (headers : gmap string string) (name : string) : Prop :=
  ∀ name', is_Some (headers !! name') →
           CanonicalMIMEHeaderKey name' = CanonicalMIMEHeaderKey name → name' = name.

(** The placeholders of the request without a value: [missing] of
    [Build]. *)
Definition missingOf (r : Request.t) : list string :=
  filter (λ name, Request.PathParams r !! name = None) (pathParamNames (Request.Path r)).

End RuntimeSpec.

(** ** The runtime: inputs of the examples *)

Module RuntimeExamples.
Import Go Runtime.

(** [http.NewRequestWithContext] succeeds. *)
Definition anyRequest : HTTPLib := {| newRequestError := λ _ _, None |}.

(** The example of the specification: the template
    [/users/{id}/posts/{postId}] with only [id] set. *)
Definition postOfUser : Request.t :=
  SetPathParam (NewRequest "GET" "/users/{id}/posts/{postId}") "id" "42".

(** A request with a body whose caller set another Content-Type, and the
    request [Build] makes of it. *)
Definition createTask : Request.t :=
  SetBody (SetHeader (NewRequest "POST" "/tasks") "content-type" "text/plain")
          (Some "{}").

Definition createTaskRequest : HttpRequest.t :=
  {| HttpRequest.Method := "POST"; HttpRequest.URL := "https://api.example.com/tasks";
     HttpRequest.Header := {["Content-Type" := ["application/json"]]};
     HttpRequest.Body := Some "{}" |}.

(** The request for the user [a/b] of the template [/users/{id}/posts]. *)
Definition postsOfUser : Request.t :=
  SetHeader (SetPathParam (NewRequest "GET" "/users/{id}/posts") "id" "a/b")
            "x-trace" "on".

(** A client for the base URL of the examples whose transport answers
    every request with [resp], and one that sets a content type of its
    own. *)
Definition answering (resp : HttpResponse.t) : Client.t :=
  New (λ _ _, Ok resp) "https://api.example.com" 30.

Definition xmlClient (resp : HttpResponse.t) : Client.t :=
  AddHeader (answering resp) "content-type" "application/xml".

(** A response of the status 500 that announces an event stream. *)
Definition failingStream : HttpResponse.t :=
  {| HttpResponse.Header := {["Content-Type" := ["text/event-stream"]]};
     HttpResponse.Response :=
       {| Response.StatusCode := 500; Response.Status := "500 Internal Server Error";
          Response.Body := {| Reader.content := "data: down" +:+ nl +:+ nl;
                              Reader.failure := None |} |} |}.

(** A host without files, and a standard input that is at its end. *)
Definition bareHost : OS.t :=
  {| OS.environ := ∅; OS.homeDir := None; OS.files := ∅ |}.

Definition closedInput : Reader.t := {| Reader.content := ""; Reader.failure := None |}.

(** A search with two parameters whose values hold the separators of a
    query. *)
Definition search : Request.t :=
  SetQueryParam (SetQueryParam (NewRequest "GET" "/search") "q" "a&b=c") "page" "2".

(** A JSON library that accepts no document. *)
Definition noJSON : JSONLib :=
  {| JSON := unit; Unmarshal := λ _, None; MarshalIndent := λ _ _ _, None |}.

(** A JSON library for the example: a document is a text that opens with
    a brace, and is printed as it is. *)
Definition bracedJSON : JSONLib :=
  {| JSON := string;
     Unmarshal := λ data, if HasPrefix data "{" then Some data else None;
     MarshalIndent := λ j _ _, Some j |}.

(** A response with the status 200 whose body cannot be read to its end. *)
Definition brokenBody : Response.t :=
  {| Response.StatusCode := 200; Response.Status := "200 OK";
     Response.Body := {| Reader.content := "";
                         Reader.failure := Some "unexpected EOF" |} |}.

Definition notFound : Response.t :=
  {| Response.StatusCode := 404; Response.Status := "404 Not Found";
     Response.Body := {| Reader.content := "no such task"; Reader.failure := None |} |}.

Definition noOutput : Sinks.t := {| Sinks.out := ""; Sinks.stderr := "" |}.

(** Stand-ins for [filepath.Join] and [yaml.Unmarshal]: the document is
    the value of [base_url]. *)
Definition slashJoin : list string → string := λ parts, Join parts "/".

Definition baseURLOnly : ConfigLib :=
  {| filepath_Join := slashJoin;
     yaml_Unmarshal := λ data config,
       ({| Config.BaseURL := data; Config.Headers := Config.Headers config |}, None) |}.

(** A host with a configuration file and the variable of the application
    [dap]. *)
Definition host : OS.t :=
  {| OS.environ := {["DAP_BASE_URL" := "https://env.example.com"]};
     OS.homeDir := Some "/home/dev";
     OS.files := {["/home/dev/.config/dap/config.yaml" :=
                     {| File.mode := 384; File.data := Some "https://file.example.com" |}]} |}.


(** A stream of one line: [n] bytes after the [data:] prefix. *)
Fixpoint repeatByte (n : nat) (c : ascii) : string :=
  match n with
  | O => ""
  | S n' => String c (repeatByte n' c)
  end.

Definition longLine (n : nat) : string := "data:" +:+ repeatByte n "x".

(** More bytes than [MaxSSEEventSize]. *)
Definition oversizeLength : nat := Z.to_nat 11000000.

End RuntimeExamples.

(** * Proofs *)

Module StringFacts.
Import Go.

Lemma append_cons c (s t : string) : String c s +:+ t = String c (s +:+ t).
Proof. reflexivity. Qed.

Lemma append_nil_l (s : string) : "" +:+ s = s.
Proof. reflexivity. Qed.

Lemma append_nil_r (s : string) : s +:+ "" = s.
Proof. induction s as [|c s IH]; [done|]. by rewrite append_cons, IH. Qed.

Lemma append_assoc (s t u : string) : (s +:+ t) +:+ u = s +:+ t +:+ u.
Proof. induction s as [|c s IH]; [done|]. by rewrite !append_cons, IH. Qed.

Lemma length_append (s t : string) :
  String.length (s +:+ t) = (String.length s + String.length t)%nat.
Proof. induction s as [|c s IH]; [done|]. rewrite append_cons. simpl. by rewrite IH. Qed.

Lemma concat_cons (x : string) (l : list string) :
  String.concat "" (x :: l) = x +:+ String.concat "" l.
Proof. destruct l; simpl; [by rewrite append_nil_r|done]. Qed.

Lemma forallb_app p (s t : string) :
  Go.forallb p (s +:+ t) = Go.forallb p s && Go.forallb p t.
Proof.
  induction s as [|c s IH]; [done|]. rewrite append_cons. simpl.
  by rewrite IH, andb_assoc.
Qed.

Lemma chr_code c : chr (code c) = c.
Proof. unfold chr, code. rewrite N2Z.id. apply ascii_N_embedding. Qed.

Lemma code_range c : 0 <= code c < 256.
Proof. unfold code. pose proof (N_ascii_bounded c). lia. Qed.

Lemma code_chr z : 0 <= z < 256 → code (chr z) = z.
Proof.
  intros Hz. unfold chr, code. rewrite N_ascii_embedding; lia.
Qed.

Lemma range_go_ascii prev c s :
  (code c <? RuneSelf) = true →
  range_go 0 prev (String c s)
  = {| before := prev; rune := code c; raw := str1 c |} :: range_go 0 (Some c) s.
Proof. intros Hc. simpl. by rewrite Hc. Qed.

(** [strings.ReplaceAll(s, "--", "-")] *)
Lemma prefix_hyphens c s :
  HasPrefix (String c s) "--" = true →
  c = "-"%char ∧ ∃ s', s = String "-" s'.
Proof.
  cbn [HasPrefix]. intros [Hc Hs]%andb_true_iff. apply Ascii.eqb_eq in Hc as <-.
  destruct s as [|d s]; [done|]. apply andb_true_iff in Hs as [Hd _].
  apply Ascii.eqb_eq in Hd as <-. eauto.
Qed.

Lemma replace_go_length k s :
  (String.length (replace_go "--" "-" k s) <= String.length s - k)%nat.
Proof.
  revert k. induction s as [|c s IH]; intros k; [simpl; lia|].
  destruct k as [|k].
  - cbn [replace_go]. destruct (HasPrefix (String c s) "--") eqn:E.
    + apply prefix_hyphens in E as (-> & s' & ->).
      rewrite append_cons, append_nil_l. cbn [String.length Nat.sub].
      specialize (IH 1%nat). cbn [String.length] in IH. lia.
    + cbn [String.length]. specialize (IH 0%nat). lia.
  - cbn [replace_go String.length]. specialize (IH k). lia.
Qed.

Lemma replace_go_shorter s :
  Contains s "--" = true →
  (String.length (replace_go "--" "-" 0 s) < String.length s)%nat.
Proof.
  induction s as [|c s IH]; [done|].
  cbn [Contains replace_go]. destruct (HasPrefix (String c s) "--") eqn:E.
  - intros _. apply prefix_hyphens in E as (-> & s' & ->).
    rewrite append_cons, append_nil_l. cbn [String.length Nat.sub].
    pose proof (replace_go_length 1 (String "-" s')) as Hl. cbn [String.length] in Hl.
    lia.
  - simpl. intros Hc%IH. lia.
Qed.

Lemma replace_go_forallb p old new k s :
  Go.forallb p new = true → Go.forallb p s = true →
  Go.forallb p (replace_go old new k s) = true.
Proof.
  intros Hn. revert k. induction s as [|c s IH]; intros k; [done|].
  cbn [Go.forallb]. intros [Hc Hs]%andb_true_iff. destruct k as [|k]; cbn [replace_go].
  - destruct (HasPrefix (String c s) old).
    + rewrite forallb_app, Hn. by apply IH.
    + cbn [Go.forallb]. rewrite Hc. by apply IH.
  - by apply IH.
Qed.

(** [strings.Trim(s, "-")] *)
Lemma trimLeftByte_forallb p c s :
  Go.forallb p s = true → Go.forallb p (trimLeftByte c s) = true.
Proof.
  induction s as [|d s IH]; [done|]. cbn [trimLeftByte].
  destruct (Ascii.eqb d c); [|done]. cbn [Go.forallb]. intros [_ Hs]%andb_true_iff. eauto.
Qed.

Lemma trimRightByte_forallb p c s :
  Go.forallb p s = true → Go.forallb p (trimRightByte c s) = true.
Proof.
  induction s as [|d s IH]; [done|]. cbn [trimRightByte Go.forallb].
  intros [Hd Hs]%andb_true_iff. specialize (IH Hs).
  destruct (trimRightByte c s) as [|e t].
  - destruct (Ascii.eqb d c); [done|]. simpl. by rewrite Hd.
  - cbn [Go.forallb] in *. by rewrite Hd.
Qed.

Lemma Contains_cons c s sub :
  Contains (String c s) sub = HasPrefix (String c s) sub || Contains s sub.
Proof. reflexivity. Qed.

Lemma Contains_tail c s sub :
  Contains (String c s) sub = false → Contains s sub = false.
Proof. cbn [Contains]. by intros [_ ?]%orb_false_iff. Qed.

Lemma trimLeftByte_Contains c s sub :
  Contains s sub = false → Contains (trimLeftByte c s) sub = false.
Proof.
  induction s as [|d s IH]; [done|]. intros Hc. cbn [trimLeftByte].
  destruct (Ascii.eqb d c); [|done]. apply IH. by eapply Contains_tail.
Qed.

Lemma trimRightByte_Contains c s :
  Contains s "--" = false → Contains (trimRightByte c s) "--" = false.
Proof.
  induction s as [|d s IH]; [done|]. intros Hc.
  pose proof (Contains_tail _ _ _ Hc) as Hs. specialize (IH Hs).
  cbn [trimRightByte]. destruct (trimRightByte c s) as [|e t] eqn:E.
  - destruct (Ascii.eqb d c); [done|]. unfold str1. cbn [Contains HasPrefix].
    by destruct (Ascii.eqb "-" d).
  - rewrite Contains_cons, IH, orb_false_r.
    rewrite Contains_cons in Hc. apply orb_false_iff in Hc as [Hp _].
    destruct s as [|e' s']; [done|].
    assert (e = e') as ->.
    { cbn [trimRightByte] in E. destruct (trimRightByte c s'); [|congruence].
      destruct (Ascii.eqb e' c); [done|]. unfold str1 in E. congruence. }
    cbn [HasPrefix] in *. rewrite !andb_true_r in *. destruct (Ascii.eqb "-" d); [|done].
    destruct (Ascii.eqb "-" e'); done.
Qed.

(** [strings.HasSuffix] with a suffix of one byte looks at the last byte. *)
Lemma HasSuffix_byte s c : HasSuffix s (str1 c) = true → Go.last s = Some c.
Proof.
  unfold HasSuffix. cbn [str1 String.length]. intros [_ Hs]%andb_true_iff.
  apply String.eqb_eq in Hs. induction s as [|d s IH]; [done|].
  cbn [String.length Nat.sub] in Hs. rewrite Nat.sub_0_r in Hs.
  destruct s as [|e s]; [unfold str1 in Hs; cbn in Hs |- *; congruence|].
  cbn [Go.last]. apply IH. cbn [String.length drop Nat.sub] in *.
  by rewrite Nat.sub_0_r.
Qed.

Lemma HasSuffix_last s c : Go.last s ≠ Some c → HasSuffix s (str1 c) = false.
Proof.
  intros Hl. destruct (HasSuffix s (str1 c)) eqn:E; [|done].
  by apply HasSuffix_byte in E.
Qed.

Lemma HasPrefix_app s rest : HasPrefix (s +:+ rest) s = true.
Proof.
  induction s as [|c s IH]; [by destruct rest|]. rewrite append_cons.
  cbn [HasPrefix]. by rewrite Ascii.eqb_refl, IH.
Qed.

Lemma Contains_prefix s sub : HasPrefix s sub = true → Contains s sub = true.
Proof. intros Hp. destruct s; cbn [Contains]; by rewrite Hp. Qed.

Lemma Join_cons_cons (a b : string) (l : list string) sep :
  Join (a :: b :: l) sep = a +:+ sep +:+ Join (b :: l) sep.
Proof. reflexivity. Qed.

End StringFacts.

Module Utf8Facts.
Import Go PlanSpec StringFacts.

(** Linear arithmetic with division and remainder by constants. *)
Ltac dlia := Z.div_mod_to_equations; lia.

(** *** The bit operations of the encoding, as arithmetic *)

Lemma land_shiftl_low a b k : 0 <= k → 0 <= b < 2 ^ k → Z.land (Z.shiftl a k) b = 0.
Proof.
  intros Hk Hb. apply Z.bits_inj'. intros n Hn.
  rewrite Z.land_spec, Z.bits_0.
  destruct (Z.lt_ge_cases n k) as [Hlt|Hge].
  - by rewrite Z.shiftl_spec_low by lia.
  - assert (Z.testbit b n = false) as ->; [|apply andb_false_r].
    destruct (Z.eq_dec b 0) as [->|Hnz]; [apply Z.bits_0|].
    apply Z.bits_above_log2; [lia|].
    apply Z.log2_lt_pow2; [lia|].
    apply Z.lt_le_trans with (2 ^ k); [lia|].
    apply Z.pow_le_mono_r; lia.
Qed.

Lemma lor_shiftl a b k : 0 <= k → 0 <= b < 2 ^ k → Z.lor (Z.shiftl a k) b = a * 2 ^ k + b.
Proof.
  intros Hk Hb. pose proof (Z.add_lor_land (Z.shiftl a k) b) as E.
  rewrite land_shiftl_low in E by assumption.
  rewrite <- (Z.shiftl_mul_pow2 a k) by lia. lia.
Qed.

Lemma lor_disjoint k x c : 0 <= k → x mod 2 ^ k = 0 → 0 <= c < 2 ^ k → Z.lor x c = x + c.
Proof.
  intros Hk Hx Hc.
  assert (E : x = Z.shiftl (x / 2 ^ k) k).
  { rewrite Z.shiftl_mul_pow2 by lia.
    pose proof (Z.div_mod x (2 ^ k)) as Hd. rewrite Hx in Hd. lia. }
  rewrite E at 1. rewrite lor_shiftl by done.
  rewrite <- Z.shiftl_mul_pow2, <- E by lia. done.
Qed.

Lemma land_low k x : 0 <= k → Z.land x (2 ^ k - 1) = x mod 2 ^ k.
Proof. intros Hk. rewrite <- Z.land_ones by lia. f_equal. rewrite Z.ones_equiv. lia. Qed.

Lemma land_0x3F x : Z.land x 0x3F = x mod 64.
Proof. apply (land_low 6). lia. Qed.

Lemma land_0x1F x : Z.land x 0x1F = x mod 32.
Proof. apply (land_low 5). lia. Qed.

Lemma land_0x0F x : Z.land x 0x0F = x mod 16.
Proof. apply (land_low 4). lia. Qed.

Lemma land_0x07 x : Z.land x 0x07 = x mod 8.
Proof. apply (land_low 3). lia. Qed.

Lemma shiftr_6 x : Z.shiftr x 6 = x / 64.
Proof. apply (Z.shiftr_div_pow2 x 6). lia. Qed.

Lemma shiftr_12 x : Z.shiftr x 12 = x / 4096.
Proof. apply (Z.shiftr_div_pow2 x 12). lia. Qed.

Lemma shiftr_18 x : Z.shiftr x 18 = x / 262144.
Proof. apply (Z.shiftr_div_pow2 x 18). lia. Qed.

Lemma shiftl_6 x : Z.shiftl x 6 = x * 64.
Proof. apply (Z.shiftl_mul_pow2 x 6). lia. Qed.

Lemma shiftl_12 x : Z.shiftl x 12 = x * 4096.
Proof. apply (Z.shiftl_mul_pow2 x 12). lia. Qed.

Lemma shiftl_18 x : Z.shiftl x 18 = x * 262144.
Proof. apply (Z.shiftl_mul_pow2 x 18). lia. Qed.

Lemma lor_0x80 b : 0 <= b < 64 → Z.lor 0x80 b = 0x80 + b.
Proof. intros Hb. apply (lor_disjoint 6); [lia|done|done]. Qed.

Lemma lor_0xC0 b : 0 <= b < 64 → Z.lor 0xC0 b = 0xC0 + b.
Proof. intros Hb. apply (lor_disjoint 6); [lia|done|done]. Qed.

Lemma lor_0xE0 b : 0 <= b < 32 → Z.lor 0xE0 b = 0xE0 + b.
Proof. intros Hb. apply (lor_disjoint 5); [lia|done|done]. Qed.

Lemma lor_0xF0 b : 0 <= b < 16 → Z.lor 0xF0 b = 0xF0 + b.
Proof. intros Hb. apply (lor_disjoint 4); [lia|done|done]. Qed.

Lemma between_true lo hi x : lo <= x <= hi → between lo hi x = true.
Proof. unfold between. intros Hx. apply andb_true_iff. split; apply Z.leb_le; lia. Qed.

Lemma between_false lo hi x : x < lo ∨ hi < x → between lo hi x = false.
Proof.
  unfold between. intros Hx. apply andb_false_iff.
  destruct Hx; [left|right]; apply Z.leb_gt; lia.
Qed.

Lemma between_spec lo hi x : between lo hi x = true ↔ lo <= x <= hi.
Proof. unfold between. rewrite andb_true_iff, !Z.leb_le. done. Qed.

(** *** [utf8.AppendRune] *)

Lemma EncodeRune_1 w : 0 <= w <= 0x7F → EncodeRune w = str1 (chr w).
Proof. intros Hw. unfold EncodeRune. by rewrite between_true. Qed.

Lemma EncodeRune_2 w :
  0x80 <= w <= 0x7FF →
  EncodeRune w = String (chr (0xC0 + w / 64)) (str1 (chr (0x80 + w mod 64))).
Proof.
  intros Hw. unfold EncodeRune.
  rewrite (between_false 0 0x7F), (between_true 0 0x7FF) by lia.
  rewrite shiftr_6, land_0x3F, lor_0xC0, lor_0x80 by dlia. done.
Qed.

Lemma EncodeRune_3 w :
  0x800 <= w <= 0xFFFF → ¬ 0xD800 <= w <= 0xDFFF →
  EncodeRune w
  = String (chr (0xE0 + w / 4096))
      (String (chr (0x80 + (w / 64) mod 64)) (str1 (chr (0x80 + w mod 64)))).
Proof.
  intros Hw Hs. unfold EncodeRune, MaxRune.
  rewrite (between_false 0 0x7F), (between_false 0 0x7FF), (between_false 0xD800 0xDFFF) by lia.
  assert ((w <? 0) = false) as -> by lia.
  assert ((0x10FFFF <? w) = false) as -> by lia.
  assert ((w <=? 0xFFFF) = true) as -> by lia.
  cbn [orb]. rewrite shiftr_6, shiftr_12, !land_0x3F, lor_0xE0, !lor_0x80 by dlia. done.
Qed.

Lemma EncodeRune_4 w :
  0x10000 <= w <= 0x10FFFF →
  EncodeRune w
  = String (chr (0xF0 + w / 262144))
      (String (chr (0x80 + (w / 4096) mod 64))
         (String (chr (0x80 + (w / 64) mod 64)) (str1 (chr (0x80 + w mod 64))))).
Proof.
  intros Hw. unfold EncodeRune, MaxRune.
  rewrite (between_false 0 0x7F), (between_false 0 0x7FF), (between_false 0xD800 0xDFFF) by lia.
  assert ((w <? 0) = false) as -> by lia.
  assert ((0x10FFFF <? w) = false) as -> by lia.
  assert ((w <=? 0xFFFF) = false) as -> by lia.
  cbn [orb]. rewrite shiftr_6, shiftr_12, shiftr_18, !land_0x3F, lor_0xF0, !lor_0x80 by dlia.
  done.
Qed.

(** *** [utf8.DecodeRuneInString] *)

Lemma Decode_1 c rest :
  code c < 0x80 → DecodeRuneInString (String c rest) = (code c, 1%nat).
Proof.
  intros Hc. unfold DecodeRuneInString, RuneSelf.
  by assert ((code c <? 0x80) = true) as -> by lia.
Qed.

Lemma Decode_2 c0 c1 rest :
  0xC2 <= code c0 <= 0xDF → 0x80 <= code c1 <= 0xBF →
  DecodeRuneInString (String c0 (String c1 rest))
  = ((code c0 - 0xC0) * 64 + (code c1 - 0x80), 2%nat).
Proof.
  intros H0 H1. unfold DecodeRuneInString, RuneSelf, cont.
  assert ((code c0 <? 0x80) = false) as -> by lia.
  rewrite (between_true 0xC2 0xDF), (between_true 0x80 0xBF) by lia.
  rewrite land_0x1F, land_0x3F, shiftl_6, (lor_disjoint 6) by dlia. f_equal. dlia.
Qed.

Lemma Decode_3 c0 c1 c2 rest :
  0xE0 <= code c0 <= 0xEF → 0x80 <= code c1 <= 0xBF → 0x80 <= code c2 <= 0xBF →
  (code c0 = 0xE0 → 0xA0 <= code c1) → (code c0 = 0xED → code c1 <= 0x9F) →
  DecodeRuneInString (String c0 (String c1 (String c2 rest)))
  = ((code c0 - 0xE0) * 4096 + (code c1 - 0x80) * 64 + (code c2 - 0x80), 3%nat).
Proof.
  intros H0 H1 H2 Hlo Hhi. unfold DecodeRuneInString, RuneSelf, cont.
  assert ((code c0 <? 0x80) = false) as -> by lia.
  rewrite (between_false 0xC2 0xDF), (between_true 0xE0 0xEF) by lia. cbv zeta.
  rewrite (between_true _ _ (code c1)), (between_true _ _ (code c2));
    [|lia|destruct (Z.eqb_spec (code c0) 0xE0), (Z.eqb_spec (code c0) 0xED); lia].
  cbn [andb].
  rewrite land_0x0F, !land_0x3F, shiftl_6, shiftl_12.
  rewrite (lor_disjoint 12 (_ * 4096) (_ * 64)), (lor_disjoint 6 (_ + _) (_ mod 64)) by dlia.
  f_equal. dlia.
Qed.

Lemma Decode_4 c0 c1 c2 c3 rest :
  0xF0 <= code c0 <= 0xF4 → 0x80 <= code c1 <= 0xBF →
  0x80 <= code c2 <= 0xBF → 0x80 <= code c3 <= 0xBF →
  (code c0 = 0xF0 → 0x90 <= code c1) → (code c0 = 0xF4 → code c1 <= 0x8F) →
  DecodeRuneInString (String c0 (String c1 (String c2 (String c3 rest))))
  = ((code c0 - 0xF0) * 262144 + (code c1 - 0x80) * 4096
     + (code c2 - 0x80) * 64 + (code c3 - 0x80), 4%nat).
Proof.
  intros H0 H1 H2 H3 Hlo Hhi. unfold DecodeRuneInString, RuneSelf, cont.
  assert ((code c0 <? 0x80) = false) as -> by lia.
  rewrite (between_false 0xC2 0xDF), (between_false 0xE0 0xEF), (between_true 0xF0 0xF4)
    by lia.
  cbv zeta.
  rewrite (between_true _ _ (code c1)), (between_true _ _ (code c2)),
    (between_true _ _ (code c3));
    [|lia|lia|destruct (Z.eqb_spec (code c0) 0xF0), (Z.eqb_spec (code c0) 0xF4); lia].
  cbn [andb].
  rewrite land_0x07, !land_0x3F, shiftl_6, shiftl_12, shiftl_18.
  rewrite (lor_disjoint 18 (_ * 262144) (_ * 4096)), (lor_disjoint 12 (_ + _) (_ * 64)),
    (lor_disjoint 6 (_ + _) (_ mod 64)) by dlia.
  f_equal. dlia.
Qed.

(** The ranges of the scalar values. *)
Lemma ValidRune_spec r :
  ValidRune r = true ↔ 0 <= r <= 0x10FFFF ∧ ¬ 0xD800 <= r <= 0xDFFF.
Proof. unfold ValidRune, MaxRune. rewrite orb_true_iff, !between_spec. lia. Qed.

(** The decoder yields scalar values only. *)
Lemma Decode_valid s : ValidRune (DecodeRuneInString s).1 = true.
Proof.
  destruct s as [|c0 rest]; [done|].
  pose proof (code_range c0) as R0.
  destruct (Z.lt_ge_cases (code c0) 0x80) as [Hlt|Hge].
  { rewrite Decode_1 by done. apply ValidRune_spec. cbn [fst]. lia. }
  unfold DecodeRuneInString, RuneSelf.
  assert ((code c0 <? 0x80) = false) as -> by lia.
  destruct (between 0xC2 0xDF (code c0)) eqn:E2.
  { apply between_spec in E2. destruct rest as [|c1 rest]; [done|].
    destruct (cont 0x80 0xBF c1) eqn:E; [|done]. apply between_spec in E.
    cbn [fst]. rewrite land_0x1F, land_0x3F, shiftl_6, (lor_disjoint 6) by dlia.
    apply ValidRune_spec. dlia. }
  destruct (between 0xE0 0xEF (code c0)) eqn:E3.
  { apply between_spec in E3. cbv zeta. destruct rest as [|c1 [|c2 rest]]; [done..|].
    destruct (cont _ _ c1) eqn:E; [|done]. apply between_spec in E.
    destruct (cont _ _ c2) eqn:E'; [|done]. apply between_spec in E'.
    cbn [andb fst].
    rewrite land_0x0F, !land_0x3F, shiftl_6, shiftl_12.
  rewrite (lor_disjoint 12 (_ * 4096) (_ * 64)), (lor_disjoint 6 (_ + _) (_ mod 64)) by dlia.
    apply ValidRune_spec.
    destruct (Z.eqb_spec (code c0) 0xE0), (Z.eqb_spec (code c0) 0xED); dlia. }
  destruct (between 0xF0 0xF4 (code c0)) eqn:E4; [|done].
  apply between_spec in E4. cbv zeta. destruct rest as [|c1 [|c2 [|c3 rest]]]; [done..|].
  destruct (cont _ _ c1) eqn:E; [|done]. apply between_spec in E.
  destruct (cont _ _ c2) eqn:E'; [|done]. apply between_spec in E'.
  destruct (cont _ _ c3) eqn:E''; [|done]. apply between_spec in E''.
  cbn [andb fst].
  rewrite land_0x07, !land_0x3F, shiftl_6, shiftl_12, shiftl_18.
  rewrite (lor_disjoint 18 (_ * 262144) (_ * 4096)), (lor_disjoint 12 (_ + _) (_ * 64)),
    (lor_disjoint 6 (_ + _) (_ mod 64)) by dlia.
  apply ValidRune_spec.
  destruct (Z.eqb_spec (code c0) 0xF0), (Z.eqb_spec (code c0) 0xF4); dlia.
Qed.

(** The encoding of a scalar value decodes to it, whatever follows. *)
Lemma Decode_Encode w rest :
  ValidRune w = true →
  DecodeRuneInString (EncodeRune w +:+ rest) = (w, String.length (EncodeRune w)).
Proof.
  intros [Hw Hs]%ValidRune_spec.
  destruct (Z.le_gt_cases w 0x7F); [|destruct (Z.le_gt_cases w 0x7FF);
    [|destruct (Z.le_gt_cases w 0xFFFF)]].
  - rewrite EncodeRune_1 by lia. unfold str1. rewrite append_cons, append_nil_l.
    rewrite Decode_1; rewrite code_chr by lia; [done|lia].
  - rewrite EncodeRune_2 by lia. unfold str1. rewrite !append_cons, append_nil_l.
    rewrite Decode_2; rewrite ?code_chr by dlia; [|dlia..]. f_equal. dlia.
  - rewrite EncodeRune_3 by lia. unfold str1. rewrite !append_cons, append_nil_l.
    rewrite Decode_3; rewrite ?code_chr by dlia; [|dlia..]. f_equal. dlia.
  - rewrite EncodeRune_4 by lia. unfold str1. rewrite !append_cons, append_nil_l.
    rewrite Decode_4; rewrite ?code_chr by dlia; [|dlia..]. f_equal. dlia.
Qed.

(** *** The bytes of an encoding *)

Lemma Encode_cons w : ∃ c u, EncodeRune w = String c u.
Proof.
  unfold EncodeRune.
  repeat match goal with |- context [if ?b then _ else _] => destruct b end;
    unfold str1; eauto.
Qed.

Lemma Encode_hyphen : EncodeRune 0x2D = "-".
Proof. reflexivity. Qed.

Lemma hyphenFree_cons c s :
  Contains (String c s) "-" = Ascii.eqb "-" c || Contains s "-".
Proof. cbn [Contains HasPrefix]. by rewrite andb_true_r. Qed.

Lemma chr_hyphen z : 0 <= z < 256 → z ≠ 0x2D → Ascii.eqb "-" (chr z) = false.
Proof.
  intros Hz Hn. apply Ascii.eqb_neq. intros E. apply (f_equal code) in E.
  rewrite code_chr in E by done. change (code "-") with 0x2D in E. lia.
Qed.

(** A hyphen byte of an encoding is the rune U+002D. *)
Lemma Encode_hyphenFree w :
  ValidRune w = true → w ≠ 0x2D → Contains (EncodeRune w) "-" = false.
Proof.
  intros [Hw Hs]%ValidRune_spec Hn.
  destruct (Z.le_gt_cases w 0x7F); [|destruct (Z.le_gt_cases w 0x7FF);
    [|destruct (Z.le_gt_cases w 0xFFFF)]].
  - rewrite EncodeRune_1 by lia. unfold str1. by rewrite hyphenFree_cons, chr_hyphen by lia.
  - rewrite EncodeRune_2 by lia. unfold str1. by rewrite !hyphenFree_cons, !chr_hyphen by dlia.
  - rewrite EncodeRune_3 by lia. unfold str1. by rewrite !hyphenFree_cons, !chr_hyphen by dlia.
  - rewrite EncodeRune_4 by lia. unfold str1. by rewrite !hyphenFree_cons, !chr_hyphen by dlia.
Qed.

(** *** [range] over encoded runes *)

Lemma take_app_length u rest : take (String.length u) (u +:+ rest) = u.
Proof. induction u as [|c u IH]; [by destruct rest|]. rewrite append_cons. cbn. by rewrite IH. Qed.

Lemma range_go_skip u prev rest :
  ∃ prev', range_go (String.length u) prev (u +:+ rest) = range_go 0 prev' rest.
Proof.
  revert prev. induction u as [|c u IH]; intros prev; [by exists prev|].
  rewrite append_cons. cbn [String.length range_go]. apply IH.
Qed.

Lemma range_go_Encode w prev rest :
  ValidRune w = true →
  ∃ prev', range_go 0 prev (EncodeRune w +:+ rest)
           = {| before := prev; rune := w; raw := EncodeRune w |} :: range_go 0 prev' rest.
Proof.
  intros Hw. pose proof (Decode_Encode w rest Hw) as Hd.
  destruct (Encode_cons w) as (c & u & E). rewrite E in *. rewrite append_cons in *.
  cbn [range_go]. rewrite Hd. cbn [String.length Nat.sub]. rewrite Nat.sub_0_r.
  destruct (range_go_skip u (Some c) rest) as [prev' ->]. exists prev'.
  do 2 f_equal. cbn [take]. by rewrite take_app_length.
Qed.

Lemma range_go_valid k prev s :
  Forall (λ x, ValidRune (rune x) = true) (range_go k prev s).
Proof.
  revert k prev. induction s as [|c s IH]; intros k prev; [constructor|].
  cbn [range_go]. destruct k as [|k]; [|apply IH].
  pose proof (Decode_valid (String c s)) as Hv.
  destruct (DecodeRuneInString (String c s)) as [r size]. constructor; [done|apply IH].
Qed.

Lemma ofRunes_cons w ws : ofRunes (w :: ws) = EncodeRune w +:+ ofRunes ws.
Proof. unfold ofRunes. cbn [List.map]. apply concat_cons. Qed.

Lemma ofRunes_app ws1 ws2 :
  ofRunes (ws1 ++ ws2) = ofRunes ws1 +:+ ofRunes ws2.
Proof.
  induction ws1 as [|w ws1 IH]; [done|].
  by rewrite <- app_comm_cons, !ofRunes_cons, IH, append_assoc.
Qed.

(** The decoder consumes a byte at least. *)
Lemma Decode_size c s : (1 <= (DecodeRuneInString (String c s)).2)%nat.
Proof.
  unfold DecodeRuneInString. cbv zeta.
  repeat match goal with
         | |- context [if ?b then _ else _] => destruct b
         | |- context [match ?r with EmptyString => _ | String _ _ => _ end] => destruct r
         end; cbn [snd]; lia.
Qed.

Lemma range_go_raw k prev s : Forall (λ x, raw x ≠ "") (range_go k prev s).
Proof.
  revert k prev. induction s as [|c s IH]; intros k prev; [constructor|].
  cbn [range_go]. destruct k as [|k]; [|apply IH].
  pose proof (Decode_size c s) as Hs.
  destruct (DecodeRuneInString (String c s)) as [r [|size]]; [cbn in Hs; lia|].
  constructor; [done|apply IH].
Qed.

End Utf8Facts.

Module KebabFacts.
Import Go Plan Tables PlanSpec PlanExamples StringFacts Utf8Facts.

(** Case analysis on a byte.  A hypothesis that computes to an absurd
    equation closes the case before the goal is computed: the goal may hold
    a call of the tables on a byte outside ASCII, which does not compute. *)
Ltac absurd_hyp :=
  match goal with
  | Hyp : _ = _ |- _ => vm_compute in Hyp; discriminate Hyp
  end.

Ltac each_byte c :=
  destruct c as [[] [] [] [] [] [] [] []]; intros;
  first [ absurd_hyp | vm_compute; reflexivity ].

Section Kebab.
Context `{UnicodeTables}.

Lemma kebabStep_ascii prev c :
  (code c <? RuneSelf) = true →
  Go.forallb kebabByte (kebabStep {| before := prev; rune := code c; raw := str1 c |}) = true.
Proof.
  intros Hc. unfold kebabStep. cbn [rune before].
  destruct (IsUpper (code c)) eqn:EU.
  - rewrite forallb_app. apply andb_true_intro. split.
    + destruct prev as [p|]; [|done].
      by destruct (negb (IsUpper (code p)) && negb (code p =? 45) && negb (code p =? 95)).
    + revert Hc EU. clear. each_byte c.
  - destruct ((code c =? 95) || (code c =? 32)) eqn:E; [done|].
    revert Hc EU E. clear. each_byte c.
Qed.



Lemma kebabLoop_ascii s prev :
  isASCII s = true →
  Go.forallb kebabByte (String.concat "" (List.map kebabStep (range_go 0 prev s))) = true.
Proof.
  revert prev. induction s as [|c s IH]; intros prev; [done|].
  unfold isASCII. cbn [Go.forallb]. intros [Hc Hs]%andb_true_iff.
  rewrite range_go_ascii by done. cbn [List.map].
  rewrite concat_cons, forallb_app, kebabStep_ascii by done. by apply IH.
Qed.


Lemma collapseHyphens_forallb p fuel res :
  p "-"%char = true → Go.forallb p res = true →
  Go.forallb p (collapseHyphens fuel res) = true.
Proof.
  intros Hp. revert res. induction fuel as [|fuel IH]; intros res Hres; [done|].
  cbn [collapseHyphens]. destruct (Contains res "--"); [|done].
  apply IH. apply replace_go_forallb; [|done]. cbn. by rewrite Hp.
Qed.

Lemma collapseHyphens_single fuel res :
  (String.length res <= fuel)%nat →
  Contains (collapseHyphens fuel res) "--" = false.
Proof.
  revert res. induction fuel as [|fuel IH]; intros res Hlen.
  - destruct res; [done|]. simpl in Hlen. lia.
  - cbn [collapseHyphens]. destruct (Contains res "--") eqn:E; [|done].
    apply IH. apply replace_go_shorter in E. cbn [ReplaceAll]. lia.
Qed.

Lemma collapseHyphens_fixed fuel res :
  Contains res "--" = false → collapseHyphens fuel res = res.
Proof. intros Hres. destruct fuel; [done|]. cbn [collapseHyphens]. by rewrite Hres. Qed.

Lemma trimLeftByte_first c s : HasPrefix (trimLeftByte c s) (str1 c) = false.
Proof.
  induction s as [|d s IH]; [done|]. cbn [trimLeftByte].
  destruct (Ascii.eqb d c) eqn:E; [done|]. cbn. rewrite Ascii.eqb_sym, E. done.
Qed.

Lemma trimRightByte_first c c' s :
  HasPrefix s (str1 c) = false → HasPrefix (trimRightByte c' s) (str1 c) = false.
Proof.
  destruct s as [|d s]; [done|]. cbn [trimRightByte].
  destruct (trimRightByte c' s); [destruct (Ascii.eqb d c')|]; done.
Qed.

Lemma trimRightByte_last c s : Go.last (trimRightByte c s) ≠ Some c.
Proof.
  induction s as [|d s IH]; [done|]. cbn [trimRightByte].
  destruct (trimRightByte c s) as [|e t].
  - destruct (Ascii.eqb d c) eqn:E; [done|]. cbn. intros [= ->].
    by rewrite Ascii.eqb_refl in E.
  - done.
Qed.

Lemma trimLeftByte_fixed c s : HasPrefix s (str1 c) = false → trimLeftByte c s = s.
Proof.
  destruct s as [|d s]; [done|]. cbn. rewrite andb_true_r, Ascii.eqb_sym. by intros ->.
Qed.

Lemma trimRightByte_fixed c s : Go.last s ≠ Some c → trimRightByte c s = s.
Proof.
  induction s as [|d s IH]; [done|]. cbn [trimRightByte Go.last].
  destruct s as [|e s].
  - cbn. destruct (Ascii.eqb d c) eqn:E; [|done]. apply Ascii.eqb_eq in E as ->. done.
  - intros Hl. by rewrite IH.
Qed.

(** On an ASCII string [toKebabCase] yields a lower kebab-case name. *)
Lemma toKebabCase_lowerKebab s : isASCII s = true → lowerKebab (toKebabCase s).
Proof.
  intros Hs. unfold toKebabCase. destruct (String.eqb s "") eqn:E.
  { apply String.eqb_eq in E as ->. by split. }
  set (result := String.concat "" (List.map kebabStep (range s))).
  assert (Hb : Go.forallb kebabByte (collapseHyphens (String.length result) result) = true).
  { apply collapseHyphens_forallb; [done|]. by apply kebabLoop_ascii. }
  assert (Hc : Contains (collapseHyphens (String.length result) result) "--" = false).
  { by apply collapseHyphens_single. }
  unfold TrimByte. split.
  - by apply trimRightByte_forallb, trimLeftByte_forallb.
  - by apply trimRightByte_Contains, trimLeftByte_Contains.
  - apply (trimRightByte_first "-"), (trimLeftByte_first "-").
  - apply trimRightByte_last.
Qed.



(** With no run of hyphens and no hyphen at either end, whatever the
    input. *)
Lemma toKebabCase_trimmed s :
  Contains (toKebabCase s) "--" = false
  ∧ HasPrefix (toKebabCase s) "-" = false
  ∧ Go.last (toKebabCase s) ≠ Some "-"%char.
Proof.
  unfold toKebabCase. destruct (String.eqb s "") eqn:E.
  { by apply String.eqb_eq in E as ->. }
  set (result := String.concat "" (List.map kebabStep (range s))).
  unfold TrimByte. split; [|split].
  - by apply trimRightByte_Contains, trimLeftByte_Contains, collapseHyphens_single.
  - apply (trimRightByte_first "-"), (trimLeftByte_first "-").
  - apply trimRightByte_last.
Qed.

(** *** Beyond ASCII: the runes of the result *)

Lemma kebabRune_hyphen : kebabRune 0x2D = true.
Proof. reflexivity. Qed.

Lemma kebabRune_valid w : kebabRune w = true → ValidRune w = true.
Proof. unfold kebabRune. intros Hw. by repeat (apply andb_true_iff in Hw as [Hw _]). Qed.

Lemma kebabStep_kebabRune prev w bytes :
  kebabRune w = true →
  kebabStep {| before := prev; rune := w; raw := bytes |} = EncodeRune w.
Proof.
  unfold kebabRune, kebabStep. cbn [rune before].
  intros [[[_ Hu%negb_true_iff]%andb_true_iff H1%negb_true_iff]%andb_true_iff
            H2%negb_true_iff]%andb_true_iff.
  by rewrite Hu, H1, H2.
Qed.

(** The loop copies the encoding of such runes. *)
Lemma kebabLoop_ofRunes ws prev :
  Forall (λ w, kebabRune w = true) ws →
  String.concat "" (List.map kebabStep (range_go 0 prev (ofRunes ws))) = ofRunes ws.
Proof.
  intros Hws. revert prev. induction Hws as [|w ws Hw _ IH]; intros prev; [done|].
  rewrite ofRunes_cons.
  destruct (range_go_Encode w prev (ofRunes ws) (kebabRune_valid _ Hw)) as [prev' ->].
  cbn [List.map]. by rewrite concat_cons, kebabStep_kebabRune, IH.
Qed.

Lemma kebabEncoded_nil : kebabEncoded "".
Proof. by exists []. Qed.

Lemma kebabEncoded_rune w : kebabRune w = true → kebabEncoded (EncodeRune w).
Proof.
  intros Hw. exists [w]. split; [by constructor|].
  by rewrite ofRunes_cons, append_nil_r.
Qed.

Lemma kebabEncoded_app s t : kebabEncoded s → kebabEncoded t → kebabEncoded (s +:+ t).
Proof.
  intros (ws1 & H1 & ->) (ws2 & H2 & ->). exists (ws1 ++ ws2).
  split; [by apply Forall_app|]. by rewrite ofRunes_app.
Qed.

Lemma kebabEncoded_hyphen : kebabEncoded "-".
Proof. apply (kebabEncoded_rune 0x2D), kebabRune_hyphen. Qed.

(** What the loop writes for a rune of the input. *)
Lemma kebabStep_encoded x :
  ValidRune (rune x) = true →
  implb (IsUpper (rune x)) (kebabRune (ToLower (rune x))) = true →
  kebabEncoded (kebabStep x).
Proof.
  intros Hv Hx. unfold kebabStep. cbv zeta. destruct (IsUpper (rune x)) eqn:EU.
  - apply kebabEncoded_app; [|by apply kebabEncoded_rune].
    destruct (before x) as [p|]; [|apply kebabEncoded_nil].
    destruct (negb (IsUpper (code p)) && negb (code p =? 45) && negb (code p =? 95));
      [apply kebabEncoded_hyphen|apply kebabEncoded_nil].
  - destruct ((rune x =? 95) || (rune x =? 32)) eqn:E; [apply kebabEncoded_hyphen|].
    apply orb_false_iff in E as [E1 E2]. apply kebabEncoded_rune.
    unfold kebabRune. by rewrite Hv, EU, E1, E2.
Qed.

Lemma kebabLoop_encoded s :
  lowersToKebab s = true →
  kebabEncoded (String.concat "" (List.map kebabStep (range s))).
Proof.
  unfold lowersToKebab, range. pose proof (range_go_valid 0 None s) as Hv.
  induction Hv as [|x l Hx _ IH]; [intros _; apply kebabEncoded_nil|].
  cbn [List.forallb List.map]. intros [H1 H2]%andb_true_iff. rewrite concat_cons.
  apply kebabEncoded_app; [by apply kebabStep_encoded|by apply IH].
Qed.

(** The encoding of such a rune is the hyphen, or holds no hyphen. *)
Lemma kebabRune_bytes w :
  kebabRune w = true →
  EncodeRune w = "-"
  ∨ Contains (EncodeRune w) "-" = false ∧ ∃ c u, EncodeRune w = String c u.
Proof.
  intros Hw%kebabRune_valid. destruct (Z.eq_dec w 0x2D) as [->|Hn]; [by left|right].
  split; [by apply Encode_hyphenFree|apply Encode_cons].
Qed.

Lemma replace_go_hyphenFree u rest :
  Contains u "-" = false →
  replace_go "--" "-" 0 (u +:+ rest) = u +:+ replace_go "--" "-" 0 rest.
Proof.
  induction u as [|c u IH]; [done|]. rewrite hyphenFree_cons.
  intros [Hc Hu]%orb_false_iff. rewrite !append_cons. cbn [replace_go HasPrefix].
  rewrite Hc. cbn [andb]. by rewrite IH.
Qed.

Lemma replace_go_encoded n ws :
  (length ws <= n)%nat → Forall (λ w, kebabRune w = true) ws →
  kebabEncoded (replace_go "--" "-" 0 (ofRunes ws)).
Proof.
  revert ws. induction n as [|n IH]; intros ws Hn Hws.
  { destruct ws; [apply kebabEncoded_nil|simpl in Hn; lia]. }
  destruct Hws as [|w ws Hw Hws]; [apply kebabEncoded_nil|]. cbn [length] in Hn.
  rewrite ofRunes_cons. destruct (kebabRune_bytes w Hw) as [E|[Hf _]].
  2:{ rewrite replace_go_hyphenFree by done.
      apply kebabEncoded_app; [by apply kebabEncoded_rune|apply IH; [lia|done]]. }
  rewrite E, append_cons, append_nil_l.
  destruct Hws as [|w' ws Hw' Hws]; [apply kebabEncoded_hyphen|].
  cbn [length] in Hn. rewrite ofRunes_cons.
  destruct (kebabRune_bytes w' Hw') as [E'|[Hf' (c & u & E')]].
  - rewrite E', append_cons, append_nil_l. cbn [replace_go HasPrefix Ascii.eqb Bool.eqb andb].
    cbn [String.length Nat.sub replace_go].
    apply (kebabEncoded_app "-"); [apply kebabEncoded_hyphen|apply IH; [lia|done]].
  - rewrite E', hyphenFree_cons in Hf'. apply orb_false_iff in Hf' as [Hc Hu].
    rewrite E', append_cons. cbn [replace_go HasPrefix]. rewrite Hc.
    cbn [Ascii.eqb Bool.eqb andb]. rewrite replace_go_hyphenFree by done.
    rewrite <- append_cons, <- E'.
    apply (kebabEncoded_app "-"); [apply kebabEncoded_hyphen|].
    apply kebabEncoded_app; [by apply kebabEncoded_rune|apply IH; [lia|done]].
Qed.

Lemma collapseHyphens_encoded fuel res :
  kebabEncoded res → kebabEncoded (collapseHyphens fuel res).
Proof.
  revert res. induction fuel as [|fuel IH]; intros res Hres; [done|].
  cbn [collapseHyphens]. destruct (Contains res "--"); [|done].
  apply IH. destruct Hres as (ws & Hws & ->). by apply (replace_go_encoded (length ws)).
Qed.

Lemma trimLeftByte_encoded res : kebabEncoded res → kebabEncoded (trimLeftByte "-" res).
Proof.
  intros (ws & Hws & ->). induction Hws as [|w ws Hw Hws IH]; [apply kebabEncoded_nil|].
  rewrite ofRunes_cons. destruct (kebabRune_bytes w Hw) as [E|[Hf (c & u & E)]].
  - by rewrite E, append_cons, append_nil_l.
  - assert (Hc : Ascii.eqb c "-" = false).
    { rewrite E, hyphenFree_cons in Hf. apply orb_false_iff in Hf as [Hc _].
      by rewrite Ascii.eqb_sym. }
    rewrite E, append_cons. cbn [trimLeftByte]. rewrite Hc, <- append_cons, <- E.
    apply kebabEncoded_app; [by apply kebabEncoded_rune|by exists ws].
Qed.

Lemma trimRightByte_hyphenFree u rest :
  Contains u "-" = false →
  trimRightByte "-" (u +:+ rest) = u +:+ trimRightByte "-" rest.
Proof.
  induction u as [|c u IH]; [done|]. rewrite hyphenFree_cons.
  intros [Hc Hu]%orb_false_iff. rewrite !append_cons. cbn [trimRightByte].
  rewrite IH by done. rewrite Ascii.eqb_sym in Hc. rewrite Hc.
  by destruct (u +:+ trimRightByte "-" rest).
Qed.

Lemma trimRightByte_encoded res : kebabEncoded res → kebabEncoded (trimRightByte "-" res).
Proof.
  intros (ws & Hws & ->). induction Hws as [|w ws Hw Hws IH]; [apply kebabEncoded_nil|].
  rewrite ofRunes_cons. destruct (kebabRune_bytes w Hw) as [E|[Hf _]].
  - rewrite E, append_cons, append_nil_l. cbn [trimRightByte].
    destruct (trimRightByte "-" (ofRunes ws)) as [|d t] eqn:Et;
      [apply kebabEncoded_nil|].
    apply (kebabEncoded_app "-"); [apply kebabEncoded_hyphen|done].
  - rewrite trimRightByte_hyphenFree by done.
    apply kebabEncoded_app; [by apply kebabEncoded_rune|done].
Qed.

(** The runes of the result, when the upper-case runes of the input have
    a lower-case form. *)
Lemma toKebabCase_encoded s : lowersToKebab s = true → kebabEncoded (toKebabCase s).
Proof.
  intros Hs. unfold toKebabCase. destruct (String.eqb s "") eqn:E.
  { apply String.eqb_eq in E as ->. apply kebabEncoded_nil. }
  by apply trimRightByte_encoded, trimLeftByte_encoded, collapseHyphens_encoded,
    kebabLoop_encoded.
Qed.

(** The encoding of such runes, with no run of hyphens and no hyphen at
    either end, is a fixed point. *)
Lemma toKebabCase_fixed_encoded t :
  kebabEncoded t → Contains t "--" = false → HasPrefix t "-" = false →
  Go.last t ≠ Some "-"%char → toKebabCase t = t.
Proof.
  intros (ws & Hws & ->) Hc Hf Hl. unfold toKebabCase.
  destruct (String.eqb (ofRunes ws) ""); [done|].
  unfold range. rewrite kebabLoop_ofRunes, collapseHyphens_fixed by done.
  unfold TrimByte. rewrite trimLeftByte_fixed by done. by apply trimRightByte_fixed.
Qed.

(** On an ASCII string the upper-case runes are the letters A to Z. *)
Lemma lowersToKebab_ascii s : isASCII s = true → lowersToKebab s = true.
Proof.
  unfold lowersToKebab, range. generalize (@None ascii).
  induction s as [|c s IH]; intros prev; [done|].
  unfold isASCII. cbn [Go.forallb]. intros [Hc Hs]%andb_true_iff.
  rewrite range_go_ascii by done. cbn [List.forallb rune].
  rewrite (IH _ Hs), andb_true_r. revert Hc. clear. each_byte c.
Qed.

(** X1. Whatever the input, the result of [toKebabCase] holds no run of
    hyphens and neither starts nor ends with a hyphen. *)
Theorem X1_toKebabCase_hyphens s :
  Contains (toKebabCase s) "--" = false
  ∧ HasPrefix (toKebabCase s) "-" = false
  ∧ HasSuffix (toKebabCase s) "-" = false.
Proof.
  destruct (toKebabCase_trimmed s) as (H1 & H2 & H3). repeat split; [done..|].
  by apply (HasSuffix_last _ "-").
Qed.

(** X2. [toKebabCase] is idempotent on every string whose upper-case
    runes have a lower-case form that is a scalar value and is neither
    upper case, an underscore nor a space; the ASCII strings are such
    strings. *)
Theorem X2_toKebabCase_idempotent s :
  lowersToKebab s = true → toKebabCase (toKebabCase s) = toKebabCase s.
Proof.
  intros Hs. destruct (toKebabCase_trimmed s) as (H1 & H2 & H3).
  by apply toKebabCase_fixed_encoded; [apply toKebabCase_encoded|..].
Qed.

End Kebab.



Lemma X2_witness :
  @lowersToKebab lettersExcerpt cafeBar = true
  ∧ @toKebabCase lettersExcerpt (@toKebabCase lettersExcerpt cafeBar)
    = @toKebabCase lettersExcerpt cafeBar.
Proof.
  split; [reflexivity|]. apply (@X2_toKebabCase_idempotent lettersExcerpt cafeBar).
  reflexivity.
Defined.

End KebabFacts.

Module NamingFacts.
Import Go Plan Tables PlanSpec PlanExamples StringFacts Utf8Facts KebabFacts.

Section Naming.
Context `{UnicodeTables}.

(** *** [DeriveCommandName] *)

(** X3. An operation id that starts with one of the ten verbs followed by
    an ASCII capital letter is named by the verb alone. *)
Theorem X3_DeriveCommandName_verb verb c rest :
  verb ∈ prefixes → between 0x41 0x5A (code c) = true →
  DeriveCommandName (verb +:+ String c rest) = verb.
Proof.
  intros Hv Hc. unfold prefixes in Hv.
  repeat (apply elem_of_cons in Hv as [->|Hv]); [..|by apply elem_of_nil in Hv];
    rewrite !append_cons, append_nil_l;
    unfold DeriveCommandName, prefixes, matchVerb;
    cbn [List.find HasPrefix Ascii.eqb Bool.eqb andb String.get String.length];
    by rewrite Hc.
Qed.

(** *** [DeriveFlagName] *)

Lemma EncodeRune_invalid r : ValidRune r = false → EncodeRune r = EncodeRune RuneError.
Proof.
  intros Hr. assert (Hn : ¬ (0 <= r <= 0x10FFFF ∧ ¬ 0xD800 <= r <= 0xDFFF)).
  { rewrite <- ValidRune_spec. by rewrite Hr. }
  unfold EncodeRune at 1, MaxRune.
  rewrite (between_false 0 0x7F), (between_false 0 0x7FF) by lia.
  destruct (Z.ltb_spec r 0); [done|]. destruct (Z.ltb_spec 0x10FFFF r); [done|].
  by rewrite (between_true 0xD800 0xDFFF) by lia.
Qed.

(** An encoding is one ASCII byte, or starts with a byte that is not
    ASCII. *)
Lemma EncodeRune_first r :
  ∃ c u, EncodeRune r = String c u ∧ (u = "" ∨ 0x80 <= code c).
Proof.
  destruct (ValidRune r) eqn:Hv.
  - apply ValidRune_spec in Hv as [Hr Hs].
    destruct (Z.le_gt_cases r 0x7F); [|destruct (Z.le_gt_cases r 0x7FF);
      [|destruct (Z.le_gt_cases r 0xFFFF)]].
    + rewrite EncodeRune_1 by lia. unfold str1. eauto.
    + rewrite EncodeRune_2 by lia. do 2 eexists. split; [done|right].
      rewrite code_chr; dlia.
    + rewrite EncodeRune_3 by lia. do 2 eexists. split; [done|right].
      rewrite code_chr; dlia.
    + rewrite EncodeRune_4 by lia. do 2 eexists. split; [done|right].
      rewrite code_chr; dlia.
  - rewrite EncodeRune_invalid by done. do 2 eexists. split; [reflexivity|right].
    vm_compute. discriminate.
Qed.

Lemma HasPrefix_X c s : HasPrefix (String c s) "X-" = true → code c = 0x58 ∧ s ≠ "".
Proof.
  cbn [HasPrefix]. intros [Hc Hs]%andb_true_iff. apply Ascii.eqb_eq in Hc as <-.
  split; [done|]. by destruct s.
Qed.

Lemma upperASCII_length s : String.length (upperASCII s) = String.length s.
Proof. induction s as [|c s IH]; [done|]. cbn. by rewrite IH. Qed.

(** X4. The slice [name[2:]] of [DeriveFlagName] is within bounds: a name
    whose upper-case form starts with X- has two bytes at least. *)
Theorem X4_DeriveFlagName_slice_in_bounds name :
  HasPrefix (strings_ToUpper name) "X-" = true → (2 <= String.length name)%nat.
Proof.
  destruct name as [|c [|d rest]]; [by vm_compute| |cbn; lia].
  unfold strings_ToUpper, isASCII. cbn [Go.forallb]. rewrite andb_true_r.
  destruct (code c <? RuneSelf) eqn:Hc.
  { cbn [upperASCII HasPrefix]. by rewrite andb_false_r. }
  unfold Map, range. cbn [range_go].
  destruct (DecodeRuneInString (String c "")) as [r size]. cbn [List.map rune].
  rewrite concat_cons. cbn [String.concat]. rewrite append_nil_r.
  destruct (ToUpper r <? 0); [done|].
  destruct (EncodeRune_first (ToUpper r)) as (e & u & -> & [->|He]).
  { cbn [HasPrefix]. by rewrite andb_false_r. }
  intros [He' _]%HasPrefix_X. lia.
Qed.

Lemma Map_ascii (mapping : Z → Z) prev c s :
  (code c <? RuneSelf) = true → 0 <= mapping (code c) <= 0x7F →
  String.concat ""
    (List.map (λ x, let r := mapping (rune x) in
                    if r <? 0 then "" else EncodeRune r) (range_go 0 prev (String c s)))
  = String (chr (mapping (code c)))
      (String.concat ""
         (List.map (λ x, let r := mapping (rune x) in
                         if r <? 0 then "" else EncodeRune r) (range_go 0 (Some c) s))).
Proof.
  intros Hc Hm. rewrite range_go_ascii by done. cbn [List.map rune].
  rewrite concat_cons. cbv zeta. assert ((mapping (code c) <? 0) = false) as -> by lia.
  by rewrite EncodeRune_1 by lia.
Qed.

(** X5. The prefix x- or X- of the name of a header parameter is left
    out of its flag name. *)
Theorem X5_DeriveFlagName_header_prefix c rest :
  c = "x"%char ∨ c = "X"%char →
  DeriveFlagName (String c (String "-" rest)) "header" = toKebabCase rest.
Proof.
  intros Hc. unfold DeriveFlagName. cbn [String.eqb Ascii.eqb Bool.eqb andb drop].
  assert (HasPrefix (strings_ToUpper (String c (String "-" rest))) "X-" = true) as ->; [|done].
  unfold strings_ToUpper. destruct (isASCII _).
  - by destruct Hc as [-> | ->].
  - unfold Map, range.
    rewrite (Map_ascii ToUpper), (Map_ascii ToUpper); by destruct Hc as [-> | ->].
Qed.

(** *** Names of ASCII strings *)

Lemma isASCII_app s t : isASCII (s +:+ t) = isASCII s && isASCII t.
Proof. apply forallb_app. Qed.

Lemma isASCII_drop n s : isASCII s = true → isASCII (drop n s) = true.
Proof.
  revert n. induction s as [|c s IH]; intros [|n]; try done.
  unfold isASCII in *. cbn [Go.forallb drop]. intros [_ Hs]%andb_true_iff. by apply IH.
Qed.

Lemma fields_go_ascii cur rs :
  isASCII cur = true → Forall (λ x, isASCII (raw x) = true) rs →
  Forall (λ field, isASCII field = true) (fields_go cur rs).
Proof.
  intros Hcur Hrs. revert cur Hcur. induction Hrs as [|x rs Hx _ IH]; intros cur Hcur.
  - cbn. destruct (String.eqb cur ""); by repeat constructor.
  - cbn [fields_go]. destruct (IsSpace (rune x)).
    + apply Forall_app. split; [|by apply IH].
      destruct (String.eqb cur ""); by repeat constructor.
    + apply IH. by rewrite isASCII_app, Hcur, Hx.
Qed.

Lemma range_go_raw_ascii p s :
  isASCII s = true → Forall (λ x, isASCII (raw x) = true) (range_go 0 p s).
Proof.
  revert p. induction s as [|c s IH]; intros p; [constructor|].
  unfold isASCII. cbn [Go.forallb]. intros [Hc Hs]%andb_true_iff.
  rewrite range_go_ascii by done. constructor; [|by apply IH].
  unfold isASCII. cbn. by rewrite Hc.
Qed.

Lemma lowerKebab_verb verb : verb ∈ prefixes → lowerKebab verb.
Proof.
  intros Hv. unfold prefixes in Hv.
  repeat (apply elem_of_cons in Hv as [->|Hv]); [..|by apply elem_of_nil in Hv];
    (split; [reflexivity..|by vm_compute]).
Qed.

(** X25. The names derived from ASCII text are in lower kebab case: the
    command name of an operation id, the flag name of a parameter at any
    location, and every element of a command path. *)
Theorem X25_derived_names_lower_kebab s :
  isASCII s = true →
  lowerKebab (DeriveCommandName s)
  ∧ (∀ location, lowerKebab (DeriveFlagName s location))
  ∧ Forall lowerKebab (ParseCommandPath s).
Proof.
  intros Hs. split_and!.
  - unfold DeriveCommandName.
    destruct (List.find (λ verb, matchVerb verb s) prefixes) as [verb|] eqn:E.
    + apply find_some in E as [Hin _]. apply lowerKebab_verb. by apply list_elem_of_In.
    + by apply toKebabCase_lowerKebab.
  - intros location. unfold DeriveFlagName.
    destruct (String.eqb location "header" && HasPrefix (strings_ToUpper s) "X-");
      apply toKebabCase_lowerKebab; [by apply isASCII_drop|done].
  - unfold ParseCommandPath, Fields. apply Forall_forall.
    intros name [field [-> Hin]]%list_elem_of_fmap.
    apply toKebabCase_lowerKebab.
    pose proof (fields_go_ascii "" (range s) eq_refl (range_go_raw_ascii None s Hs)) as Hf.
    rewrite Forall_forall in Hf. by apply Hf.
Qed.

End Naming.

Lemma X25_witness :
  isASCII "fetchUser_ByID" = true
  ∧ lowerKebab (@DeriveCommandName lettersExcerpt "fetchUser_ByID").
Proof.
  assert (Ha : isASCII "fetchUser_ByID" = true) by reflexivity.
  split; [done|].
  apply (@X25_derived_names_lower_kebab lettersExcerpt "fetchUser_ByID" Ha).
Defined.

Lemma X3_witness :
  "list" ∈ prefixes ∧ between 0x41 0x5A (code "U") = true
  ∧ @DeriveCommandName lettersExcerpt ("list" +:+ "Users") = "list".
Proof.
  assert (Hv : "list" ∈ prefixes) by apply list_elem_of_here.
  assert (Hc : between 0x41 0x5A (code "U") = true) by reflexivity.
  split; [done|]. split; [done|].
  apply (@X3_DeriveCommandName_verb lettersExcerpt "list" "U" "sers" Hv Hc).
Defined.

Lemma X4_witness :
  HasPrefix (@strings_ToUpper lettersExcerpt "x-api-key") "X-" = true
  ∧ (2 <= String.length "x-api-key")%nat.
Proof.
  assert (Hp : HasPrefix (@strings_ToUpper lettersExcerpt "x-api-key") "X-" = true)
    by reflexivity.
  split; [done|]. apply (@X4_DeriveFlagName_slice_in_bounds lettersExcerpt _ Hp).
Defined.

Lemma X5_witness :
  ("X"%char = "x"%char ∨ "X"%char = "X"%char)
  ∧ @DeriveFlagName lettersExcerpt "X-Request-ID" "header"
    = @toKebabCase lettersExcerpt "Request-ID".
Proof.
  assert (Hc : "X"%char = "x"%char ∨ "X"%char = "X"%char) by (by right).
  split; [done|].
  apply (@X5_DeriveFlagName_header_prefix lettersExcerpt "X" "Request-ID" Hc).
Defined.

End NamingFacts.

Module PlanFacts.
Import Go Plan Tables PlanSpec PlanExamples.

Section Params.
Context `{UnicodeTables} `{Spec.GoTypes}.

Lemma splitParams_filter (params : list Spec.Param.t) :
  splitParams params = (List.filter isPath params, List.filter (λ p, negb (isPath p)) params).
Proof.
  unfold splitParams.
  enough (Hgen : ∀ l a b,
             fold_left (λ (acc : list Spec.Param.t * list Spec.Param.t) p,
                        if isPath p
                        then (acc.1 ++ [p], acc.2) else (acc.1, acc.2 ++ [p])) l (a, b)
             = (a ++ List.filter isPath l, b ++ List.filter (λ p, negb (isPath p)) l)).
  { apply (Hgen params [] []). }
  induction l as [|p l IH]; intros a b; simpl.
  - by rewrite !app_nil_r.
  - destruct (isPath p); simpl; rewrite IH; by rewrite <- ?app_assoc.
Qed.

Lemma placePathParams_filter (pathParams : list Spec.Param.t) :
  placePathParams pathParams
  = (List.map buildParamPlan (List.filter isPositional pathParams),
     List.map buildParamPlan (List.filter (λ p, negb (isPositional p)) pathParams)).
Proof.
  unfold placePathParams.
  enough (Hgen : ∀ l a b,
             fold_left (λ (acc : list ParamPlan.t * list ParamPlan.t) p,
                        let paramPlan := buildParamPlan p in
                        if isPositional p
                        then (acc.1 ++ [paramPlan], acc.2) else (acc.1, acc.2 ++ [paramPlan]))
                       l (a, b)
             = (a ++ List.map buildParamPlan (List.filter isPositional l),
                b ++ List.map buildParamPlan (List.filter (λ p, negb (isPositional p)) l))).
  { apply (Hgen pathParams [] []). }
  induction l as [|p l IH]; intros a b; simpl.
  - by rewrite !app_nil_r.
  - destruct (isPositional p); simpl; rewrite IH; simpl; by rewrite <- ?app_assoc.
Qed.

Lemma appendFlags_map flags (otherParams : list Spec.Param.t) :
  appendFlags flags otherParams = flags ++ List.map buildParamPlan otherParams.
Proof.
  unfold appendFlags. revert flags.
  induction otherParams as [|p l IH]; intros flags; simpl.
  - by rewrite app_nil_r.
  - rewrite IH. by rewrite <- app_assoc.
Qed.

Lemma filter_filter_and {A} (f g : A → bool) l :
  List.filter g (List.filter f l) = List.filter (λ x, f x && g x) l.
Proof.
  induction l as [|x l IH]; simpl; [done|].
  destruct (f x); simpl; [destruct (g x)|]; by rewrite ?IH.
Qed.

Lemma buildOpPlan_params groupName (op : Spec.Operation.t) opPlan :
  buildOpPlan groupName op = Some opPlan →
  OpPlan.Positionals opPlan
    = List.map buildParamPlan (List.filter positionalParam (Spec.Operation.Params op))
  ∧ OpPlan.Flags opPlan
    = List.map buildParamPlan (List.filter forcedFlagParam (Spec.Operation.Params op))
      ++ List.map buildParamPlan (List.filter (λ p, negb (isPath p)) (Spec.Operation.Params op)).
Proof.
  unfold buildOpPlan. destruct (commandPath groupName op) as [path|]; simpl; [|done].
  rewrite splitParams_filter, placePathParams_filter, appendFlags_map.
  intros [= <-]; simpl. by rewrite !filter_filter_and.
Qed.

Lemma isPath_true p : isPath p = true ↔ Spec.Param.In p = "path".
Proof. apply String.eqb_eq. Qed.

Lemma isPositional_false p : isPositional p = false ↔ forcedToFlag p.
Proof.
  unfold isPositional, forcedToFlag.
  destruct (Spec.Param.Cli p) as [c|]; [|done].
  destruct (Spec.ParamCliOverrides.Positional c) as [[]|]; simpl; naive_solver.
Qed.

Lemma positionalParam_true p :
  positionalParam p = true ↔ Spec.Param.In p = "path" ∧ ¬ forcedToFlag p.
Proof.
  unfold positionalParam. rewrite andb_true_iff, isPath_true, <- isPositional_false.
  destruct (isPositional p); naive_solver.
Qed.

Lemma positionalParam_false p :
  positionalParam p = false ↔ ¬ (Spec.Param.In p = "path" ∧ ¬ forcedToFlag p).
Proof. rewrite <- positionalParam_true. destruct (positionalParam p); naive_solver. Qed.

Lemma flags_Permutation (ps : list Spec.Param.t) :
  List.filter forcedFlagParam ps ++ List.filter (λ p, negb (isPath p)) ps
  ≡ₚ List.filter (λ p, negb (positionalParam p)) ps.
Proof.
  induction ps as [|p ps IH]; simpl; [done|].
  unfold forcedFlagParam, positionalParam in *.
  destruct (isPath p), (isPositional p); simpl; try done.
  - by constructor.
  - rewrite <- IH. symmetry. apply Permutation_middle.
  - rewrite <- IH. symmetry. apply Permutation_middle.
Qed.

(** C2. A parameter is emitted in [Positionals] if and only if its location
    is [path] and its tri-state override is not explicitly false; the other
    parameters are emitted in [Flags]; each parameter is emitted once.  In
    particular a path parameter with a flag-name override and
    [positional=false] is emitted as a flag, under the overriding name. *)
Theorem C2_positional_iff_path_not_forced groupName (op : Spec.Operation.t) opPlan :
  buildOpPlan groupName op = Some opPlan →
  (∀ pp, pp ∈ OpPlan.Positionals opPlan ↔
         ∃ p, p ∈ Spec.Operation.Params op ∧ pp = buildParamPlan p
              ∧ Spec.Param.In p = "path" ∧ ¬ forcedToFlag p)
  ∧ (∀ pp, pp ∈ OpPlan.Flags opPlan ↔
           ∃ p, p ∈ Spec.Operation.Params op ∧ pp = buildParamPlan p
                ∧ ¬ (Spec.Param.In p = "path" ∧ ¬ forcedToFlag p))
  ∧ OpPlan.Positionals opPlan ++ OpPlan.Flags opPlan
    ≡ₚ List.map buildParamPlan (Spec.Operation.Params op)
  ∧ (∀ p c, p ∈ Spec.Operation.Params op →
            Spec.Param.In p = "path" →
            Spec.Param.Cli p = Some c →
            Spec.ParamCliOverrides.Flag c ≠ "" →
            Spec.ParamCliOverrides.Positional c = Some false →
            buildParamPlan p ∈ OpPlan.Flags opPlan
            ∧ ParamPlan.FlagName (buildParamPlan p) = Spec.ParamCliOverrides.Flag c
            ∧ positionalParam p = false).
Proof.
  intros Hb. destruct (buildOpPlan_params _ _ _ Hb) as [Hpos Hflags].
  assert (Hfl : ∀ pp, pp ∈ OpPlan.Flags opPlan ↔
           ∃ p, p ∈ Spec.Operation.Params op ∧ pp = buildParamPlan p
                ∧ ¬ (Spec.Param.In p = "path" ∧ ¬ forcedToFlag p)).
  { intros pp. rewrite Hflags, <- List.map_app, flags_Permutation.
    rewrite list_elem_of_In, in_map_iff. split.
    - intros (p & <- & Hin). apply filter_In in Hin as [Hin Hp].
      exists p. rewrite <- list_elem_of_In in Hin. split_and!; [done..|].
      apply positionalParam_false. by destruct (positionalParam p).
    - intros (p & Hin & -> & Hp). exists p. split; [done|].
      apply filter_In. rewrite <- list_elem_of_In. split; [done|].
      apply positionalParam_false in Hp. by rewrite Hp. }
  split_and!.
  - intros pp. rewrite Hpos, list_elem_of_In, in_map_iff. split.
    + intros (p & <- & Hin). apply filter_In in Hin as [Hin Hp].
      exists p. rewrite <- list_elem_of_In in Hin.
      apply positionalParam_true in Hp. naive_solver.
    + intros (p & Hin & -> & Hp). exists p. split; [done|].
      apply filter_In. rewrite <- list_elem_of_In. split; [done|].
      by apply positionalParam_true.
  - done.
  - rewrite Hpos, Hflags, <- !List.map_app. apply Permutation_map.
    rewrite flags_Permutation. clear.
    induction (Spec.Operation.Params op) as [|p ps IH]; simpl; [done|].
    destruct (positionalParam p); simpl.
    + by constructor.
    + rewrite <- Permutation_middle. by constructor.
  - intros p c Hin Hpath Hcli Hflag Hforce.
    assert (Hf : forcedToFlag p) by (unfold forcedToFlag; by rewrite Hcli).
    split_and!.
    + apply Hfl. exists p. naive_solver.
    + unfold buildParamPlan; simpl. rewrite Hcli.
      destruct (String.eqb (Spec.ParamCliOverrides.Flag c) "") eqn:E; [|done].
      by apply String.eqb_eq in E.
    + apply positionalParam_false. naive_solver.
Qed.


End Params.

Lemma C2_witness :
  @buildOpPlan noTables unitTypes "repos" listRepos = Some listReposPlan
  ∧ @buildParamPlan noTables unitTypes (pathParam "orgName" (Some orgFlag))
    ∈ OpPlan.Flags listReposPlan
  ∧ ParamPlan.FlagName <$> OpPlan.Positionals listReposPlan = ["repo"]
  ∧ ParamPlan.FlagName <$> OpPlan.Flags listReposPlan = ["org"; "page"].
Proof.
  split; [reflexivity|]. split; [|split; reflexivity].
  apply (@C2_positional_iff_path_not_forced noTables unitTypes "repos" listRepos
           listReposPlan eq_refl).
  exists (pathParam "orgName" (Some orgFlag)). split_and!.
  - apply list_elem_of_In. simpl. auto.
  - reflexivity.
  - intros [_ Hn]. apply Hn. reflexivity.
Defined.



End PlanFacts.

Module BuildFacts.
Import Go Plan Tables PlanSpec PlanExamples StringFacts KebabFacts PlanFacts.

Section Groups.
Context `{UnicodeTables} `{Spec.GoTypes}.

Lemma groupByTag_dom (ops : list Spec.Operation.t) :
  dom (groupByTag ops) = list_to_set (tagKey <$> ops).
Proof.
  unfold groupByTag.
  enough (Hgen : ∀ (l : list Spec.Operation.t) (m : gmap string (list Spec.Operation.t)),
             dom (fold_left (λ groups op,
                             let tag := tagKey op in
                             <[tag := default [] (groups !! tag) ++ [op]]> groups) l m)
             = dom m ∪ list_to_set (tagKey <$> l)).
  { rewrite Hgen, dom_empty_L. set_solver. }
  induction l as [|op l IH]; intros m; simpl.
  - set_solver.
  - rewrite IH, dom_insert_L. set_solver.
Qed.

Lemma keys_tags (ops : list Spec.Operation.t) rangeOrder k :
  keysInSomeOrder (groupByTag ops) rangeOrder →
  k ∈ rangeOrder ↔ ∃ op, op ∈ ops ∧ tagKey op = k.
Proof.
  unfold keysInSomeOrder. intros ->.
  rewrite list_elem_of_fmap. split.
  - intros ([k' v] & -> & Hkv). apply elem_of_map_to_list in Hkv.
    assert (Hd : k' ∈ dom (groupByTag ops)) by (apply elem_of_dom; eauto).
    rewrite groupByTag_dom, elem_of_list_to_set, list_elem_of_fmap in Hd.
    destruct Hd as (op & -> & Hop). eauto.
  - intros (op & Hop & <-).
    assert (Hd : tagKey op ∈ dom (groupByTag ops)).
    { rewrite groupByTag_dom, elem_of_list_to_set, list_elem_of_fmap. eauto. }
    apply elem_of_dom in Hd as [v Hv]. exists (tagKey op, v). split; [done|].
    by apply elem_of_map_to_list.
Qed.




End Groups.



End BuildFacts.

Module GroupFacts.
Import Go Plan Tables PlanSpec PlanExamples StringFacts Utf8Facts KebabFacts PlanFacts
  BuildFacts.

(** *** [strings.Fields] of a blank string *)

Lemma fields_go_nil cur rs :
  Forall (λ x, raw x ≠ "") rs →
  fields_go cur rs = [] ↔ cur = "" ∧ List.forallb (λ x, IsSpace (rune x)) rs = true.
Proof.
  intros Hrs. revert cur. induction Hrs as [|x rs Hx _ IH]; intros cur.
  - cbn. destruct (String.eqb_spec cur ""); naive_solver.
  - cbn [fields_go List.forallb]. destruct (IsSpace (rune x)).
    + rewrite andb_true_l. destruct (String.eqb_spec cur "") as [->|Hn].
      * rewrite app_nil_l, IH. naive_solver.
      * split; [done|]. by intros [? _].
    + rewrite andb_false_l, IH. split; [|by intros [_ ?]].
      intros [Hc _]. destruct cur; [|done]. by rewrite append_nil_l in Hc.
Qed.

Lemma Fields_nil s : Fields s = [] ↔ blank s = true.
Proof.
  unfold Fields, blank, range. rewrite fields_go_nil by apply range_go_raw. naive_solver.
Qed.

Section Groups.
Context `{UnicodeTables} `{Spec.GoTypes}.

(** *** The panic of [buildOpPlan] *)

Lemma buildOpPlan_commandPath groupName (op : Spec.Operation.t) :
  buildOpPlan groupName op = None ↔ commandPath groupName op = None.
Proof.
  unfold buildOpPlan. destruct (commandPath groupName op); cbn; [|done].
  destruct (splitParams _) as [pathParams otherParams].
  by destruct (placePathParams pathParams).
Qed.

Lemma commandPath_None groupName (op : Spec.Operation.t) :
  commandPath groupName op = None ↔ blankNameWithGroup op = true.
Proof.
  unfold commandPath, blankNameWithGroup, ParseCommandPath.
  destruct (Spec.Operation.Cli op) as [c|]; [|done].
  destruct (String.eqb (Spec.CliOverrides.Group c) ""); cbn [negb].
  { rewrite andb_false_r. done. }
  rewrite andb_true_r.
  destruct (String.eqb (Spec.CliOverrides.Name c) ""); cbn [negb andb]; [done|].
  rewrite <- Fields_nil. destruct (Fields (Spec.CliOverrides.Name c)); done.
Qed.

(** X6. [buildOpPlan] panics, on the assignment to [CommandPath[0]],
    exactly for an operation whose x-cli override sets a group and a name
    that is not empty but consists of white space. *)
Theorem X6_buildOpPlan_panics groupName (op : Spec.Operation.t) :
  buildOpPlan groupName op = None ↔ blankNameWithGroup op = true.
Proof. rewrite buildOpPlan_commandPath. apply commandPath_None. Qed.

(** *** The groups of [Build] *)

Lemma groupByTag_lookup (ops : list Spec.Operation.t) k :
  default [] (groupByTag ops !! k) = taggedWith k ops.
Proof.
  unfold groupByTag, taggedWith.
  enough (Hgen : ∀ (l : list Spec.Operation.t) (m : gmap string (list Spec.Operation.t)),
             default [] (fold_left (λ groups op,
                                    let tag := tagKey op in
                                    <[tag := default [] (groups !! tag) ++ [op]]> groups)
                                   l m !! k)
             = default [] (m !! k) ++ filter (λ op, tagKey op = k) l).
  { by rewrite Hgen, lookup_empty. }
  induction l as [|op l IH]; intros m; cbn [fold_left].
  - by rewrite filter_nil, app_nil_r.
  - rewrite IH, filter_cons. cbv zeta. destruct (decide (tagKey op = k)) as [->|Hn].
    + rewrite lookup_insert_eq. simpl. by rewrite <- app_assoc.
    + by rewrite lookup_insert_ne.
Qed.

Lemma taggedWith_elem k (ops : list Spec.Operation.t) op :
  op ∈ taggedWith k ops ↔ op ∈ ops ∧ tagKey op = k.
Proof. unfold taggedWith. rewrite list_elem_of_filter. naive_solver. Qed.

Lemma buildGroupPlan_None k (ops : list Spec.Operation.t) :
  buildGroupPlan k ops = None ↔ ∃ op, op ∈ ops ∧ blankNameWithGroup op = true.
Proof.
  unfold buildGroupPlan. destruct (mapM (buildOpPlan k) ops) as [l|] eqn:E; cbn.
  - split; [done|]. intros (op & Hop & Hb). apply mapM_Some in E.
    apply list_elem_of_lookup in Hop as [i Hi].
    destruct (Forall2_lookup_l _ _ _ _ _ E Hi) as (y & _ & Hy).
    apply (commandPath_None k), buildOpPlan_commandPath in Hb. congruence.
  - split; [|done]. intros _. apply mapM_None, Exists_exists in E as (op & Hop & Hn).
    exists op. split; [done|]. by apply (commandPath_None k), buildOpPlan_commandPath.
Qed.

(** X7. [Build] panics exactly when an operation of the specification
    has such an override; the order in which the map of the groups is
    ranged over plays no part. *)
Theorem X7_Build_panics (s : Spec.t) appName moduleName rangeOrder :
  keysInSomeOrder (groupByTag (Spec.Operations s)) rangeOrder →
  Build s appName moduleName rangeOrder = None
  ↔ ∃ op, op ∈ Spec.Operations s ∧ blankNameWithGroup op = true.
Proof.
  intros Hkeys. unfold Build.
  destruct (mapM _ (sortStrings rangeOrder)) as [l|] eqn:E; cbn.
  - split; [done|]. intros (op & Hop & Hb). apply mapM_Some in E.
    assert (Hk : tagKey op ∈ sortStrings rangeOrder).
    { unfold sortStrings. rewrite merge_sort_Permutation, (keys_tags _ _ _ Hkeys). eauto. }
    apply list_elem_of_lookup in Hk as [i Hi].
    destruct (Forall2_lookup_l _ _ _ _ _ E Hi) as (g & _ & Hg).
    assert (Hn : buildGroupPlan (tagKey op)
                   (default [] (groupByTag (Spec.Operations s) !! tagKey op)) = None).
    { apply buildGroupPlan_None. exists op. split; [|done].
      rewrite groupByTag_lookup. by apply taggedWith_elem. }
    congruence.
  - split; [|done]. intros _. apply mapM_None, Exists_exists in E as (k & _ & Hn).
    apply buildGroupPlan_None in Hn as (op & Hop & Hb).
    rewrite groupByTag_lookup in Hop. apply taggedWith_elem in Hop as [Hop _]. eauto.
Qed.

Lemma Build_groups (s : Spec.t) appName moduleName rangeOrder plan :
  Build s appName moduleName rangeOrder = Some plan →
  Forall2 (λ k g,
           GroupPlan.Name g = DeriveGroupName k
           ∧ mapM (buildOpPlan k) (taggedWith k (Spec.Operations s))
             = Some (GroupPlan.Operations g))
          (sortStrings rangeOrder) (Groups plan).
Proof.
  unfold Build.
  destruct (mapM _ (sortStrings rangeOrder)) as [l|] eqn:E; cbn; [|done].
  intros [= <-]. cbn [Groups]. apply mapM_Some in E.
  eapply Forall2_impl; [exact E|]. intros k g. cbv beta.
  rewrite groupByTag_lookup. unfold buildGroupPlan.
  destruct (mapM (buildOpPlan k) _) as [opPlans|]; cbn; [|done]. by intros [= <-].
Qed.

Lemma buildOpPlan_OperationID k (op : Spec.Operation.t) opPlan :
  buildOpPlan k op = Some opPlan →
  OpPlan.OperationID opPlan = Spec.Operation.OperationID op.
Proof.
  unfold buildOpPlan. destruct (commandPath k op); cbn; [|done].
  destruct (splitParams _) as [pathParams otherParams].
  destruct (placePathParams pathParams). by intros [= <-].
Qed.

Lemma mapM_OperationID k (ops : list Spec.Operation.t) opPlans :
  mapM (buildOpPlan k) ops = Some opPlans →
  OpPlan.OperationID <$> opPlans = Spec.Operation.OperationID <$> ops.
Proof.
  intros E%mapM_Some. induction E as [|op p ops ps Hp _ IH]; [done|].
  rewrite !fmap_cons, IH. f_equal. by eapply buildOpPlan_OperationID.
Qed.

(** X8. The group built for a tag key is named after the key and holds
    the plans of the operations of that tag, in the order of the
    specification, and nothing else. *)
Theorem X8_group_operations (s : Spec.t) appName moduleName rangeOrder plan :
  Build s appName moduleName rangeOrder = Some plan →
  Forall2 (λ k g,
           GroupPlan.Name g = DeriveGroupName k
           ∧ Forall2 (λ op opPlan, buildOpPlan k op = Some opPlan)
                     (taggedWith k (Spec.Operations s)) (GroupPlan.Operations g)
           ∧ OpPlan.OperationID <$> GroupPlan.Operations g
             = Spec.Operation.OperationID <$> taggedWith k (Spec.Operations s))
          (sortStrings rangeOrder) (Groups plan).
Proof.
  intros Hb%Build_groups. eapply Forall2_impl; [exact Hb|].
  intros k g [Hn Hops]. split; [done|]. split.
  - by apply mapM_Some.
  - by eapply mapM_OperationID.
Qed.

Lemma taggedWith_nil k : taggedWith k ([] : list Spec.Operation.t) = [].
Proof. done. Qed.

Lemma taggedWith_cons k op (ops : list Spec.Operation.t) :
  taggedWith k (op :: ops)
  = if decide (tagKey op = k) then op :: taggedWith k ops else taggedWith k ops.
Proof. unfold taggedWith. by rewrite filter_cons. Qed.

Lemma concat_taggedWith_other op (ops : list Spec.Operation.t) (keys : list string) :
  tagKey op ∉ keys →
  (λ k, taggedWith k (op :: ops)) <$> keys = (λ k, taggedWith k ops) <$> keys.
Proof.
  intros Hn. apply list_fmap_ext. intros i k Hk. rewrite taggedWith_cons.
  destruct (decide (tagKey op = k)) as [<-|]; [|done].
  exfalso. apply Hn. by eapply list_elem_of_lookup_2.
Qed.

(** Every operation is in the list of one key. *)
Lemma concat_taggedWith (ops : list Spec.Operation.t) (keys : list string) :
  NoDup keys → (∀ op, op ∈ ops → tagKey op ∈ keys) →
  concat ((λ k, taggedWith k ops) <$> keys) ≡ₚ ops.
Proof.
  intros Hnd. induction ops as [|op ops IH]; intros Hin.
  - clear. induction keys as [|k keys IH]; [done|]. by rewrite fmap_cons.
  - assert (Hk : tagKey op ∈ keys) by (apply Hin; left).
    apply list_elem_of_split in Hk as (l1 & l2 & ->).
    apply NoDup_app in Hnd as Hnd'. destruct Hnd' as (_ & Hl1 & Hl2%NoDup_cons).
    destruct Hl2 as [Hl2 _].
    assert (Hn1 : tagKey op ∉ l1).
    { intros Hx. apply (Hl1 _ Hx). left. }
    trans (op :: concat ((λ k, taggedWith k ops) <$> (l1 ++ tagKey op :: l2))).
    2:{ apply Permutation_skip, IH. intros op' Hop'. apply Hin. by right. }
    rewrite !fmap_app, !fmap_cons, !concat_app, !List.concat_cons.
    rewrite !concat_taggedWith_other by done.
    rewrite taggedWith_cons, decide_True by done.
    by rewrite <- app_comm_cons, <- Permutation_middle.
Qed.

Lemma groups_OperationID (ops : list Spec.Operation.t) (keys : list string) gs :
  Forall2 (λ k g,
           GroupPlan.Name g = DeriveGroupName k
           ∧ mapM (buildOpPlan k) (taggedWith k ops) = Some (GroupPlan.Operations g))
          keys gs →
  OpPlan.OperationID <$> concat (GroupPlan.Operations <$> gs)
  = Spec.Operation.OperationID <$> concat ((λ k, taggedWith k ops) <$> keys).
Proof.
  induction 1 as [|k g keys gs [_ Hg] _ IH]; [done|].
  rewrite !fmap_cons, !List.concat_cons, !fmap_app, IH. f_equal.
  by eapply mapM_OperationID.
Qed.

(** X10. The plan holds every operation of the specification once: the
    operation ids of its groups are a permutation of those of the
    specification. *)
Theorem X10_Build_keeps_operations (s : Spec.t) appName moduleName rangeOrder plan :
  keysInSomeOrder (groupByTag (Spec.Operations s)) rangeOrder →
  Build s appName moduleName rangeOrder = Some plan →
  OpPlan.OperationID <$> concat (GroupPlan.Operations <$> Groups plan)
  ≡ₚ Spec.Operation.OperationID <$> Spec.Operations s.
Proof.
  intros Hkeys Hb%Build_groups.
  assert (Hperm : sortStrings rangeOrder ≡ₚ rangeOrder) by apply merge_sort_Permutation.
  rewrite (groups_OperationID _ _ _ Hb). apply fmap_Permutation, concat_taggedWith.
  - rewrite Hperm. unfold keysInSomeOrder in Hkeys. rewrite Hkeys.
    apply NoDup_fst_map_to_list.
  - intros op Hop. rewrite Hperm, (keys_tags _ _ _ Hkeys). eauto.
Qed.

(** X9. The result of [Build] does not depend on the order in which Go
    ranges over the map of the groups. *)
Theorem X9_Build_order_independent (s : Spec.t) appName moduleName order1 order2 :
  keysInSomeOrder (groupByTag (Spec.Operations s)) order1 →
  keysInSomeOrder (groupByTag (Spec.Operations s)) order2 →
  Build s appName moduleName order1 = Build s appName moduleName order2.
Proof.
  unfold keysInSomeOrder. intros H1 H2. unfold Build.
  assert (sortStrings order1 = sortStrings order2) as ->; [|done].
  unfold sortStrings. apply (StronglySorted_unique String.le).
  - apply StronglySorted_merge_sort; apply _.
  - apply StronglySorted_merge_sort; apply _.
  - by rewrite !merge_sort_Permutation, H1, H2.
Qed.

End Groups.

Lemma X6_witness :
  blankNameWithGroup pingBlank = true
  ∧ @buildOpPlan noTables unitTypes "default" pingBlank = None.
Proof.
  assert (Hb : blankNameWithGroup pingBlank = true) by reflexivity.
  split; [done|].
  apply (proj2 (@X6_buildOpPlan_panics noTables unitTypes "default" pingBlank) Hb).
Defined.

Lemma X7_witness :
  keysInSomeOrder (groupByTag (Spec.Operations blankSpec)) ["default"]
  ∧ @Build noTables unitTypes blankSpec "app" "example.com/app" ["default"] = None.
Proof.
  assert (Hk : keysInSomeOrder (groupByTag (Spec.Operations blankSpec)) ["default"]).
  { unfold keysInSomeOrder. vm_compute. reflexivity. }
  split; [done|].
  apply (proj2 (@X7_Build_panics noTables unitTypes blankSpec "app" "example.com/app"
                  ["default"] Hk)).
  exists pingBlank. split; [apply list_elem_of_here|reflexivity].
Defined.

Lemma X8_witness :
  ∃ plan,
    @Build noTables unitTypes twoTags "app" "example.com/app" ["a"; "B"] = Some plan
    ∧ Forall2 (λ k g,
               GroupPlan.Name g = @DeriveGroupName noTables k
               ∧ Forall2 (λ op opPlan, @buildOpPlan noTables unitTypes k op = Some opPlan)
                         (taggedWith k (Spec.Operations twoTags)) (GroupPlan.Operations g)
               ∧ OpPlan.OperationID <$> GroupPlan.Operations g
                 = Spec.Operation.OperationID <$> taggedWith k (Spec.Operations twoTags))
              (sortStrings ["a"; "B"]) (Groups plan).
Proof.
  destruct (@Build noTables unitTypes twoTags "app" "example.com/app" ["a"; "B"])
    as [plan|] eqn:E; [|by vm_compute in E].
  exists plan. split; [done|].
  apply (@X8_group_operations noTables unitTypes twoTags "app" "example.com/app"
           ["a"; "B"] plan E).
Defined.

Lemma X9_witness :
  keysInSomeOrder (groupByTag (Spec.Operations twoTags)) ["a"; "B"]
  ∧ keysInSomeOrder (groupByTag (Spec.Operations twoTags)) ["B"; "a"]
  ∧ @Build noTables unitTypes twoTags "app" "example.com/app" ["a"; "B"]
    = @Build noTables unitTypes twoTags "app" "example.com/app" ["B"; "a"].
Proof.
  assert (H1 : keysInSomeOrder (groupByTag (Spec.Operations twoTags)) ["a"; "B"]).
  { unfold keysInSomeOrder. vm_compute. reflexivity. }
  assert (H2 : keysInSomeOrder (groupByTag (Spec.Operations twoTags)) ["B"; "a"]).
  { unfold keysInSomeOrder. vm_compute. apply perm_swap. }
  split; [done|]. split; [done|].
  apply (@X9_Build_order_independent noTables unitTypes twoTags "app" "example.com/app"
           ["a"; "B"] ["B"; "a"] H1 H2).
Defined.

Lemma X10_witness :
  ∃ plan,
    @Build noTables unitTypes twoTags "app" "example.com/app" ["a"; "B"] = Some plan
    ∧ OpPlan.OperationID <$> concat (GroupPlan.Operations <$> Groups plan)
      ≡ₚ Spec.Operation.OperationID <$> Spec.Operations twoTags.
Proof.
  destruct (@Build noTables unitTypes twoTags "app" "example.com/app" ["a"; "B"])
    as [plan|] eqn:E; [|by vm_compute in E].
  exists plan. split; [done|].
  assert (Hk : keysInSomeOrder (groupByTag (Spec.Operations twoTags)) ["a"; "B"]).
  { unfold keysInSomeOrder. vm_compute. reflexivity. }
  apply (@X10_Build_keeps_operations noTables unitTypes twoTags "app" "example.com/app"
           ["a"; "B"] plan Hk E).
Defined.

End GroupFacts.

Module RequestFacts.
Import Go Runtime RuntimeSpec RuntimeExamples StringFacts.

(** *** The matches of the path parameter pattern *)

(** Text without an opening brace holds no match. *)
Lemma findPathParams_skip pre rest :
  Go.forallb (λ c, negb (Ascii.eqb c "{")) pre = true →
  findPathParams None (pre +:+ rest) = findPathParams None rest.
Proof.
  induction pre as [|c pre IH]; [done|]. cbn [Go.forallb].
  intros [Hc Hpre]%andb_true_iff. rewrite append_cons. cbn [findPathParams].
  apply negb_true_iff in Hc as ->. by apply IH.
Qed.

(** After an opening brace, bytes other than the closing brace are read
    into the name, up to the closing brace: the match is the leftmost one
    and the search goes on after it. *)
Lemma findPathParams_name acc name post :
  Go.forallb (λ c, negb (Ascii.eqb c "}")) name = true →
  acc +:+ name ≠ "" →
  findPathParams (Some acc) (name +:+ "}" +:+ post)
  = (acc +:+ name) :: findPathParams None post.
Proof.
  revert acc. induction name as [|c name IH]; intros acc Hname Hne.
  - rewrite append_nil_l, append_nil_r in *. rewrite append_cons. cbn [findPathParams].
    rewrite Ascii.eqb_refl. by destruct acc.
  - cbn [Go.forallb] in Hname. apply andb_true_iff in Hname as [Hc Hname].
    rewrite append_cons. cbn [findPathParams]. apply negb_true_iff in Hc as ->.
    assert (Heq : (acc +:+ str1 c) +:+ name = acc +:+ String c name)
      by (by rewrite append_assoc).
    rewrite IH; [by rewrite Heq|done|by rewrite Heq].
Qed.

Lemma pathParamNames_match pre name post :
  Go.forallb (λ c, negb (Ascii.eqb c "{")) pre = true →
  Go.forallb (λ c, negb (Ascii.eqb c "}")) name = true →
  name ≠ "" →
  pathParamNames (pre +:+ "{" +:+ name +:+ "}" +:+ post) = name :: pathParamNames post.
Proof.
  intros Hpre Hname Hne. unfold pathParamNames.
  rewrite findPathParams_skip by done. rewrite append_cons. cbn [findPathParams].
  rewrite Ascii.eqb_refl, append_nil_l.
  by rewrite (findPathParams_name "" name post).
Qed.

(** *** The validation of [Build] *)

Lemma missingParams_filter r :
  missingParams r
  = filter (λ name, Request.PathParams r !! name = None) (pathParamNames (Request.Path r)).
Proof.
  unfold missingParams.
  enough (Hgen : ∀ (l acc : list string),
             fold_left (λ missing paramName,
                        match Request.PathParams r !! paramName with
                        | Some _ => missing
                        | None => missing ++ [paramName]
                        end) l acc
             = acc ++ filter (λ name, Request.PathParams r !! name = None) l).
  { apply (Hgen _ []). }
  induction l as [|n l IH]; intros acc; simpl.
  - by rewrite app_nil_r.
  - rewrite IH, filter_cons. destruct (Request.PathParams r !! n) eqn:E.
    + by rewrite decide_False.
    + rewrite decide_True by done. by rewrite <- app_assoc.
Qed.

Section Build.
Context `{HTTPLib}.

(** C1. When a placeholder of the path template has no entry in the
    path-parameter map, [Build] returns an error and no request; the
    message lists, joined by a comma and a space, the placeholders that have
    no entry, all of them and only them. *)
Theorem C1_missing_path_parameters_listed r baseURL pathOrder headerOrder :
  (∃ name, name ∈ pathParamNames (Request.Path r)
           ∧ Request.PathParams r !! name = None) →
  let missing :=
    filter (λ name, Request.PathParams r !! name = None)
           (pathParamNames (Request.Path r)) in
  Build r baseURL pathOrder headerOrder
  = Err ("missing required path parameter(s): " +:+ Join missing ", ")
  ∧ missing ≠ []
  ∧ (∀ name, name ∈ missing ↔
             name ∈ pathParamNames (Request.Path r)
             ∧ Request.PathParams r !! name = None)
  ∧ (∀ name value, Request.PathParams r !! name = Some value → name ∉ missing).
Proof.
  intros (name & Hin & Hnone) missing.
  assert (Hm : name ∈ missing) by (by apply list_elem_of_filter).
  split_and!.
  - unfold Build. rewrite missingParams_filter. fold missing.
    destruct missing; [by apply not_elem_of_nil in Hm|]. reflexivity.
  - intros Hnil. rewrite Hnil in Hm. by apply not_elem_of_nil in Hm.
  - intros n. unfold missing. rewrite list_elem_of_filter. tauto.
  - intros n v Hv [Hn _]%list_elem_of_filter. congruence.
Qed.

Lemma headers_lookup (l : list (string * string)) h k vs :
  fold_left (λ h nv, HeaderSet h nv.1 nv.2) l h !! k = Some vs →
  h !! k = Some vs
  ∨ ∃ nv, nv ∈ l ∧ CanonicalMIMEHeaderKey nv.1 = k ∧ vs = [nv.2].
Proof.
  revert h. induction l as [|[n v] l IH]; intros h; simpl; [auto|].
  intros [Hh|(nv & Hnv & Hk & Hvs)]%IH.
  - unfold HeaderSet in Hh. apply lookup_insert_Some in Hh as [[Hk Hv]|[_ Hh]]; [|auto].
    right. exists (n, v). split_and!; [apply list_elem_of_here|done..].
  - right. exists nv. split; [by apply list_elem_of_further|done].
Qed.

(** C10. The request [Build] produces for a body that is not nil carries
    the header Content-Type with the one value application/json, whatever
    headers the caller set; for a nil body, its Content-Type header, if any,
    is one the caller set. *)
Theorem C10_content_type_of_body r baseURL pathOrder headerOrder req :
  entriesInSomeOrder (Request.Headers r) headerOrder →
  Build r baseURL pathOrder headerOrder = Ok req →
  (∀ body, Request.Body r = Some body →
           HttpRequest.Header req !! "Content-Type" = Some ["application/json"])
  ∧ (Request.Body r = None →
     ∀ values, HttpRequest.Header req !! "Content-Type" = Some values →
               ∃ name value, Request.Headers r !! name = Some value
                             ∧ CanonicalMIMEHeaderKey name = "Content-Type"
                             ∧ values = [value]).
Proof.
  intros Horder. unfold Build.
  destruct (0 <? length (missingParams r))%nat; [done|].
  destruct (newRequestError _ _); [done|]. intros [= <-]. cbn [HttpRequest.Header].
  split.
  - intros body ->. unfold HeaderSet. by rewrite lookup_insert_eq.
  - intros -> values [Hv|(nv & Hnv & Hk & ->)]%headers_lookup; [done|].
    exists nv.1, nv.2. split_and!; [|done..].
    unfold entriesInSomeOrder in Horder. rewrite Horder in Hnv.
    destruct nv. by apply elem_of_map_to_list.
Qed.

End Build.

Lemma C1_witness :
  @Build anyRequest postOfUser "https://api.example.com" [("id", "42")] []
  = Err "missing required path parameter(s): postId".
Proof.
  apply (@C1_missing_path_parameters_listed anyRequest postOfUser
           "https://api.example.com" [("id", "42")] []).
  exists "postId". split; [|reflexivity].
  apply list_elem_of_In. simpl. auto.
Defined.

Lemma C10_witness :
  @Build anyRequest createTask "https://api.example.com/" [] [("content-type", "text/plain")]
  = Ok createTaskRequest
  ∧ HttpRequest.Header createTaskRequest !! "Content-Type" = Some ["application/json"].
Proof.
  assert (Hb : @Build anyRequest createTask "https://api.example.com/" []
                      [("content-type", "text/plain")] = Ok createTaskRequest).
  { vm_compute. reflexivity. }
  split; [exact Hb|].
  apply (@C10_content_type_of_body anyRequest createTask "https://api.example.com/" []
           [("content-type", "text/plain")] createTaskRequest) with (body := "{}").
  - unfold entriesInSomeOrder. vm_compute. reflexivity.
  - exact Hb.
  - reflexivity.
Defined.

End RequestFacts.

Module URLFacts.
Import Go Runtime RuntimeSpec RuntimeExamples StringFacts Utf8Facts KebabFacts RequestFacts.

(** *** Suffixes *)

Lemma drop_app_length u rest : drop (String.length u) (u +:+ rest) = rest.
Proof. induction u as [|c u IH]; [done|]. by rewrite append_cons. Qed.

Lemma TrimSuffix_app b p : p ≠ "" → TrimSuffix (b +:+ p) p = b.
Proof.
  intros Hp. unfold TrimSuffix, HasSuffix. rewrite length_append.
  replace (String.length b + String.length p - String.length p)%nat
    with (String.length b) by lia.
  rewrite drop_app_length, String.eqb_refl, take_app_length.
  by assert ((String.length p <=? String.length b + String.length p)%nat = true)
    as -> by (apply Nat.leb_le; lia).
Qed.

Lemma TrimSuffix_none b p : HasSuffix b p = false → TrimSuffix b p = b.
Proof. unfold TrimSuffix. by intros ->. Qed.

(** *** [strings.ReplaceAll] of a placeholder *)

Lemma replace_go_skip old new u rest :
  replace_go old new (String.length u) (u +:+ rest) = replace_go old new 0 rest.
Proof. induction u as [|c u IH]; [done|]. rewrite append_cons. cbn. apply IH. Qed.

(** Text without an opening brace holds no placeholder. *)
Lemma replace_go_no_brace old new pre rest :
  Go.forallb (λ c, negb (Ascii.eqb c "{")) pre = true →
  replace_go (String "{" old) new 0 (pre +:+ rest)
  = pre +:+ replace_go (String "{" old) new 0 rest.
Proof.
  induction pre as [|c pre IH]; [done|]. cbn [Go.forallb].
  intros [Hc Hpre]%andb_true_iff. apply negb_true_iff in Hc.
  rewrite !append_cons. cbn [replace_go HasPrefix].
  rewrite Ascii.eqb_sym, Hc. cbn [andb]. by rewrite IH.
Qed.

Lemma replace_go_occurrence old new post :
  old ≠ "" → replace_go old new 0 (old +:+ post) = new +:+ replace_go old new 0 post.
Proof.
  intros Hold. destruct old as [|c old'] eqn:E; [done|]. rewrite <- E.
  assert (Hs : old +:+ post = String c (old' +:+ post)) by (by rewrite E).
  rewrite Hs. cbn [replace_go]. rewrite <- Hs, HasPrefix_app. f_equal.
  rewrite E. cbn [String.length Nat.sub]. rewrite Nat.sub_0_r. apply replace_go_skip.
Qed.

Lemma replace_go_placeholder name new pre post :
  Go.forallb (λ c, negb (Ascii.eqb c "{")) pre = true →
  Go.forallb (λ c, negb (Ascii.eqb c "{")) post = true →
  ReplaceAll (pre +:+ "{" +:+ name +:+ "}" +:+ post) ("{" +:+ name +:+ "}") new
  = pre +:+ new +:+ post.
Proof.
  intros Hpre Hpost.
  change ("{" +:+ name +:+ "}" +:+ post) with (String "{" (name +:+ "}" +:+ post)).
  change ("{" +:+ name +:+ "}") with (String "{" (name +:+ "}")).
  unfold ReplaceAll. rewrite replace_go_no_brace by done. f_equal.
  rewrite <- (append_assoc name "}" post), <- (append_cons "{" (name +:+ "}") post).
  rewrite replace_go_occurrence by done. f_equal.
  pose proof (replace_go_no_brace (name +:+ "}") new post "" Hpost) as Hp.
  by rewrite !append_nil_r in Hp.
Qed.

(** *** [url.PathEscape] *)

Lemma PathEscape_byte c :
  Go.forallb segmentSafe (if shouldEscapePathSegment c then percent c else str1 c) = true.
Proof. destruct c as [[] [] [] [] [] [] [] []]; vm_compute; reflexivity. Qed.

Lemma PathEscape_segmentSafe v : Go.forallb segmentSafe (PathEscape v) = true.
Proof.
  induction v as [|c v IH]; [done|]. cbn [PathEscape].
  by rewrite forallb_app, PathEscape_byte, IH.
Qed.

(** *** The placeholders of a path *)

Lemma findPathParams_names inside s :
  (∀ acc, inside = Some acc → Go.forallb (λ c, negb (Ascii.eqb c "}")) acc = true) →
  Forall placeholderName (findPathParams inside s).
Proof.
  revert inside. induction s as [|c s IH]; intros inside Hacc; [constructor|].
  cbn [findPathParams]. destruct inside as [name|].
  - specialize (Hacc name eq_refl). destruct (Ascii.eqb c "}") eqn:E.
    + destruct name as [|d name]; [by apply IH|].
      constructor; [by split|by apply IH].
    + apply IH. intros acc [= <-]. rewrite forallb_app, Hacc. cbn. by rewrite E.
  - destruct (Ascii.eqb c "{"); apply IH; [by intros acc [= <-]|done].
Qed.

(** X26. The placeholders [Build] looks for are not empty and hold no
    closing brace: a pair of braces with nothing between them asks for no
    parameter. *)
Theorem X26_placeholders_are_names path :
  Forall placeholderName (pathParamNames path)
  ∧ ∀ pre post, Go.forallb (λ c, negb (Ascii.eqb c "{")) pre = true →
                pathParamNames (pre +:+ "{}" +:+ post) = pathParamNames post.
Proof.
  split; [by apply findPathParams_names|]. intros pre post Hpre.
  unfold pathParamNames. rewrite findPathParams_skip by done.
  by rewrite !append_cons, append_nil_l.
Qed.

(** *** [url.QueryEscape] and the separators of a query *)

Lemma countByte_app b s t : countByte b (s +:+ t) = (countByte b s + countByte b t)%nat.
Proof.
  induction s as [|c s IH]; [done|]. rewrite append_cons. cbn [countByte].
  rewrite IH. lia.
Qed.

Lemma QueryEscape_byte c :
  let piece := if Ascii.eqb c " " then "+"
               else if shouldEscapeQueryComponent c then percent c else str1 c in
  countByte "&" piece = 0%nat ∧ countByte "=" piece = 0%nat.
Proof. destruct c as [[] [] [] [] [] [] [] []]; vm_compute; done. Qed.

Lemma QueryEscape_separators v :
  countByte "&" (QueryEscape v) = 0%nat ∧ countByte "=" (QueryEscape v) = 0%nat.
Proof.
  induction v as [|c v [IH1 IH2]]; [done|]. cbn [QueryEscape].
  destruct (QueryEscape_byte c) as [H1 H2]. cbv zeta in H1, H2.
  by rewrite !countByte_app, H1, H2, IH1, IH2.
Qed.

Lemma Join_pairs (m : gmap string string) keys :
  keys ≠ [] →
  let pairs := List.map (λ k, QueryEscape k +:+ "=" +:+ QueryEscape (default "" (m !! k)))
                        keys in
  (countByte "&" (Join pairs "&") + 1)%nat = length keys
  ∧ countByte "=" (Join pairs "&") = length keys.
Proof.
  intros Hne pairs. subst pairs. induction keys as [|k keys IH]; [done|].
  destruct (QueryEscape_separators k) as [Hk1 Hk2].
  destruct (QueryEscape_separators (default "" (m !! k))) as [Hv1 Hv2].
  destruct keys as [|k' keys].
  - cbn [List.map Join length]. rewrite !countByte_app, Hk1, Hk2, Hv1, Hv2. done.
  - destruct IH as [IH1 IH2]; [done|].
    cbn [List.map] in *. rewrite Join_cons_cons, !countByte_app, Hk1, Hk2, Hv1, Hv2.
    cbn [length] in *. cbn [countByte Ascii.eqb Bool.eqb andb]. lia.
Qed.

Section Build.
Context `{HTTPLib}.

(** X11. One slash at the end of the base URL makes no difference to
    [Build]. *)
Theorem X11_Build_base_slash r baseURL pathOrder headerOrder :
  HasSuffix baseURL "/" = false →
  Build r (baseURL +:+ "/") pathOrder headerOrder = Build r baseURL pathOrder headerOrder.
Proof.
  intros Hb. unfold Build. by rewrite TrimSuffix_app, TrimSuffix_none.
Qed.

(** X12. For a template with one placeholder, [Build] puts the escaped
    value of the parameter in the place of the placeholder, between the
    base URL without its final slash and the query; the escaped value
    holds no slash, question mark or hash, so that it stays one segment
    of the path. *)
Theorem X12_Build_substitutes r baseURL pathOrder headerOrder pre name value post req :
  Request.Path r = pre +:+ "{" +:+ name +:+ "}" +:+ post →
  Go.forallb (λ c, negb (Ascii.eqb c "{")) pre = true →
  Go.forallb (λ c, negb (Ascii.eqb c "{")) post = true →
  Request.PathParams r = {[ name := value ]} →
  entriesInSomeOrder (Request.PathParams r) pathOrder →
  Build r baseURL pathOrder headerOrder = Ok req →
  HttpRequest.URL req
  = TrimSuffix baseURL "/" +:+ pre +:+ PathEscape value +:+ post +:+ queryPart r
  ∧ Go.forallb segmentSafe (PathEscape value) = true.
Proof.
  intros Hpath Hpre Hpost Hparams Horder Hbuild. split; [|apply PathEscape_segmentSafe].
  unfold entriesInSomeOrder in Horder. rewrite Hparams, map_to_list_singleton in Horder.
  apply Permutation_singleton_r in Horder as ->.
  unfold Build in Hbuild. destruct (0 <? length (missingParams r))%nat; [done|].
  cbn [fold_left fst snd] in Hbuild. rewrite Hpath, replace_go_placeholder in Hbuild by done.
  unfold queryPart. destruct (newRequestError _ _); [done|]. injection Hbuild as <-.
  cbn [HttpRequest.URL]. destruct (0 <? size (Request.QueryParams r))%nat.
  - by rewrite !append_assoc.
  - by rewrite append_nil_r.
Qed.

(** X27. The query [Build] adds to the URL has one equals sign for each
    query parameter and one ampersand between two of them, whatever the
    names and the values hold: a value cannot bring in a parameter of its
    own. *)
Theorem X27_query_separators r baseURL pathOrder headerOrder req :
  Request.QueryParams r ≠ ∅ →
  Build r baseURL pathOrder headerOrder = Ok req →
  let query := Encode (Request.QueryParams r) in
  (∃ url, HttpRequest.URL req = url +:+ "?" +:+ query)
  ∧ countByte "=" query = size (Request.QueryParams r)
  ∧ (countByte "&" query + 1)%nat = size (Request.QueryParams r).
Proof.
  intros Hne Hbuild query.
  assert (Hsize : (0 < size (Request.QueryParams r))%nat).
  { destruct (decide (size (Request.QueryParams r) = 0%nat)) as [E|]; [|lia].
    by apply map_size_empty_iff in E. }
  assert (Hlen : length (merge_sort String.le (map_to_list (Request.QueryParams r)).*1)
                 = size (Request.QueryParams r)).
  { by rewrite merge_sort_Permutation, length_fmap, length_map_to_list. }
  destruct (Join_pairs (Request.QueryParams r)
              (merge_sort String.le (map_to_list (Request.QueryParams r)).*1))
    as [Hamp Heq].
  { intros E. rewrite E in Hlen. cbn in Hlen. lia. }
  rewrite Hlen in Hamp, Heq.
  subst query. unfold Encode.
  split_and!; [|lia..].
  unfold Build in Hbuild. destruct (0 <? length (missingParams r))%nat; [done|].
  apply Nat.ltb_lt in Hsize. rewrite Hsize in Hbuild.
  destruct (newRequestError _ _); [done|]. injection Hbuild as <-. by eexists.
Qed.

Lemma headers_unset (l : list (string * string)) h k :
  (∀ nv, nv ∈ l → CanonicalMIMEHeaderKey nv.1 ≠ k) →
  fold_left (λ h nv, HeaderSet h nv.1 nv.2) l h !! k = h !! k.
Proof.
  revert h. induction l as [|nv l IH]; intros h Hl; [done|]. cbn [fold_left].
  rewrite IH by (intros nv' Hnv'; apply Hl; by right).
  unfold HeaderSet. apply lookup_insert_ne, Hl. by left.
Qed.

(** The value of a key that one entry sets, or entries of one value. *)
Lemma headers_set (l : list (string * string)) h k v :
  (∃ nv, nv ∈ l ∧ CanonicalMIMEHeaderKey nv.1 = k) →
  (∀ nv, nv ∈ l → CanonicalMIMEHeaderKey nv.1 = k → nv.2 = v) →
  fold_left (λ h nv, HeaderSet h nv.1 nv.2) l h !! k = Some [v].
Proof.
  revert h. induction l as [|nv l IH] using rev_ind; intros h (nv0 & Hin & Hk) Hall.
  { by apply not_elem_of_nil in Hin. }
  rewrite fold_left_app. cbn [fold_left]. unfold HeaderSet at 1.
  destruct (decide (CanonicalMIMEHeaderKey nv.1 = k)) as [E|Hne].
  - rewrite E, lookup_insert_eq. do 2 f_equal. apply Hall; [|done].
    apply elem_of_app. right. by left.
  - rewrite lookup_insert_ne by done. apply IH.
    + exists nv0. split; [|done]. apply elem_of_app in Hin as [?|Hin]; [done|].
      apply list_elem_of_singleton in Hin as ->. done.
    + intros nv' Hnv'. apply Hall, elem_of_app. by left.
Qed.

(** X13. A header set on the request reaches the request [Build] makes,
    under its canonical name and with its value, when no other header of
    the request has that canonical name and the JSON content type of a
    body does not replace it. *)
Theorem X13_Build_keeps_header r baseURL pathOrder headerOrder req name value :
  entriesInSomeOrder (Request.Headers r) headerOrder →
  Build r baseURL pathOrder headerOrder = Ok req →
  Request.Headers r !! name = Some value →
  soleHeader (Request.Headers r) name →
  Request.Body r = None ∨ CanonicalMIMEHeaderKey name ≠ "Content-Type" →
  HttpRequest.Header req !! CanonicalMIMEHeaderKey name = Some [value].
Proof.
  intros Horder Hbuild Hname Hsole Hct. unfold entriesInSomeOrder in Horder.
  unfold Build in Hbuild. destruct (0 <? length (missingParams r))%nat; [done|].
  destruct (newRequestError _ _); [done|]. injection Hbuild as <-.
  cbn [HttpRequest.Header].
  assert (Hset : fold_left (λ h nv, HeaderSet h nv.1 nv.2) headerOrder ∅
                 !! CanonicalMIMEHeaderKey name = Some [value]).
  { apply headers_set.
    - exists (name, value). split; [|done]. rewrite Horder. by apply elem_of_map_to_list.
    - intros [n v] Hnv Hk. rewrite Horder in Hnv. apply elem_of_map_to_list in Hnv.
      cbn [fst snd] in *. assert (n = name) as -> by (by apply Hsole). congruence. }
  destruct (Request.Body r) as [body|]; [|done].
  destruct Hct as [|Hct]; [done|]. unfold HeaderSet. by rewrite lookup_insert_ne.
Qed.

End Build.

Lemma X27_witness :
  ∃ req,
    @Build anyRequest search "https://api.example.com" [] [] = Ok req
    ∧ countByte "=" (Encode (Request.QueryParams search)) = size (Request.QueryParams search)
    ∧ (countByte "&" (Encode (Request.QueryParams search)) + 1)%nat
      = size (Request.QueryParams search).
Proof.
  destruct (@Build anyRequest search "https://api.example.com" [] []) as [req|] eqn:E;
    [|by vm_compute in E].
  exists req. split; [done|].
  destruct (@X27_query_separators anyRequest search "https://api.example.com" [] [] req)
    as (_ & Heq & Hamp); [by vm_compute|done|].
  by split.
Defined.

Lemma X11_witness :
  HasSuffix "https://api.example.com" "/" = false
  ∧ @Build anyRequest postOfUser ("https://api.example.com" +:+ "/") [("id", "42")] []
    = @Build anyRequest postOfUser "https://api.example.com" [("id", "42")] [].
Proof.
  assert (Hs : HasSuffix "https://api.example.com" "/" = false) by reflexivity.
  split; [done|].
  apply (@X11_Build_base_slash anyRequest postOfUser "https://api.example.com"
           [("id", "42")] [] Hs).
Defined.

Lemma X12_witness :
  ∃ req,
    @Build anyRequest postsOfUser "https://api.example.com/" [("id", "a/b")]
           [("x-trace", "on")] = Ok req
    ∧ HttpRequest.URL req = "https://api.example.com/users/a%2Fb/posts".
Proof.
  destruct (@Build anyRequest postsOfUser "https://api.example.com/" [("id", "a/b")]
                   [("x-trace", "on")]) as [req|] eqn:E; [|by vm_compute in E].
  exists req. split; [done|].
  destruct (@X12_Build_substitutes anyRequest postsOfUser "https://api.example.com/"
              [("id", "a/b")] [("x-trace", "on")] "/users/" "id" "a/b" "/posts" req)
    as [-> _]; [reflexivity..| |done|reflexivity].
  unfold entriesInSomeOrder. vm_compute. reflexivity.
Defined.

Lemma X13_witness :
  ∃ req,
    @Build anyRequest postsOfUser "https://api.example.com/" [("id", "a/b")]
           [("x-trace", "on")] = Ok req
    ∧ HttpRequest.Header req !! "X-Trace" = Some ["on"].
Proof.
  destruct (@Build anyRequest postsOfUser "https://api.example.com/" [("id", "a/b")]
                   [("x-trace", "on")]) as [req|] eqn:E; [|by vm_compute in E].
  exists req. split; [done|].
  apply (@X13_Build_keeps_header anyRequest postsOfUser "https://api.example.com/"
           [("id", "a/b")] [("x-trace", "on")] req "x-trace" "on").
  - unfold entriesInSomeOrder. vm_compute. reflexivity.
  - done.
  - reflexivity.
  - intros name' [v Hv] _. cbn in Hv. by apply lookup_singleton_Some in Hv as [? _].
  - by left.
Defined.

End URLFacts.

Module ResponseFacts.
Import Go Runtime Tables RuntimeSpec RuntimeExamples StringFacts.

Section Response.
Context `{JSONLib}.

(** C8 (amended). When the body is read to its end, [handleResponse]
    returns an error if and only if the status code is outside [200, 299];
    the error holds the status code and not the body, which is written to
    the standard error only, and an empty body of a 2xx response leaves both
    writers as they were.  When reading the body fails, [handleResponse]
    returns that failure, whatever the status code. *)
Theorem C8_error_iff_status_when_body_read resp w :
  (∀ err, Reader.failure (Response.Body resp) = Some err →
          handleResponse resp w = (w, Some ("failed to read response body: " +:+ err)))
  ∧ (Reader.failure (Response.Body resp) = None →
     ((handleResponse resp w).2 ≠ None ↔
      Response.StatusCode resp < 200 ∨ 299 < Response.StatusCode resp)
     ∧ (Response.StatusCode resp < 200 ∨ 299 < Response.StatusCode resp →
        (handleResponse resp w).2
        = Some ("request failed with status " +:+ pretty (Response.StatusCode resp))
        ∧ Sinks.out (handleResponse resp w).1 = Sinks.out w
        ∧ Sinks.stderr (handleResponse resp w).1
          = let head := Sinks.stderr w +:+ "Error: HTTP "
                        +:+ pretty (Response.StatusCode resp) +:+ " "
                        +:+ Response.Status resp +:+ nl in
            if String.eqb (Reader.content (Response.Body resp)) "" then head
            else head +:+ Reader.content (Response.Body resp) +:+ nl)
     ∧ (200 <= Response.StatusCode resp <= 299 →
        Reader.content (Response.Body resp) = "" →
        handleResponse resp w = (w, None))).
Proof.
  unfold handleResponse. split.
  - by intros err ->.
  - intros ->.
    destruct ((Response.StatusCode resp <? 200) || (300 <=? Response.StatusCode resp))
      eqn:E.
    + apply orb_true_iff in E as Hs. rewrite Z.ltb_lt, Z.leb_le in Hs.
      split_and!.
      * simpl. split; [lia|done].
      * intros _. simpl. split_and!; [done..|].
        by destruct (Reader.content (Response.Body resp)).
      * lia.
    + apply orb_false_iff in E as Hs. rewrite Z.ltb_ge, Z.leb_gt in Hs.
      split_and!.
      * simpl. split; [done|lia].
      * lia.
      * intros _ ->. simpl. by destruct w.
Qed.

End Response.

Lemma C8_counterexample :
  ¬ (∀ (J : JSONLib) resp w,
        (handleResponse resp w).2 ≠ None ↔
        Response.StatusCode resp < 200 ∨ 299 < Response.StatusCode resp).
Proof.
  intros Hc. destruct (Hc noJSON brokenBody noOutput) as [Hs _].
  assert (Hs' : Response.StatusCode brokenBody < 200 ∨ 299 < Response.StatusCode brokenBody)
    by (by apply Hs).
  simpl in Hs'. lia.
Qed.

Lemma C8_witness :
  (@handleResponse noJSON notFound noOutput).2 = Some "request failed with status 404".
Proof.
  apply (@C8_error_iff_status_when_body_read noJSON notFound noOutput).
  - reflexivity.
  - right. reflexivity.
Defined.

End ResponseFacts.

Module ConfigFacts.
Import Go Runtime Tables RuntimeSpec RuntimeExamples StringFacts.

Section Config.
Context `{UnicodeTables} `{ConfigLib}.

Lemma envPrefix_variable appName :
  (strings_ToUpper appName +:+ "_") +:+ "BASE_URL" = baseURLVariable appName.
Proof. unfold baseURLVariable. by rewrite append_assoc. Qed.

(** C9. [LoadConfig] returns the value of the environment variable as
    [BaseURL] when it is set and not empty, whatever the file sets; when the
    variable is unset or empty, the configuration is the one loaded from the
    file. *)
Theorem C9_environment_overrides_file os appName path info data :
  getConfigPath os appName = path →
  path ≠ "" →
  OS.files os !! path = Some info →
  File.data info = Some data →
  let fromFile :=
    (yaml_Unmarshal data {| Config.BaseURL := ""; Config.Headers := ∅ |}).1 in
  let variable := baseURLVariable appName in
  (∀ value, OS.environ os !! variable = Some value → value ≠ "" →
            Config.BaseURL (LoadConfig os appName).1 = value
            ∧ Config.Headers (LoadConfig os appName).1 = Config.Headers fromFile)
  ∧ (OS.environ os !! variable = None ∨ OS.environ os !! variable = Some "" →
     (LoadConfig os appName).1 = fromFile).
Proof.
  intros Hpath Hne Hinfo Hdata fromFile variable.
  assert (Hfile : (fileConfig os appName).1 = fromFile).
  { unfold fileConfig, loadConfigFile. rewrite Hpath.
    destruct (String.eqb path "") eqn:E; [by apply String.eqb_eq in E|].
    simpl. rewrite Hinfo, Hdata. subst fromFile.
    by destruct (yaml_Unmarshal data _). }
  unfold LoadConfig. destruct (fileConfig os appName) as [config warnings].
  simpl in Hfile. subst config. rewrite envPrefix_variable. fold variable.
  unfold Getenv. split.
  - intros value -> Hvalue. simpl.
    destruct (String.eqb value "") eqn:E; [by apply String.eqb_eq in E|]. done.
  - by intros [-> | ->].
Qed.

End Config.

Lemma C9_witness :
  Config.BaseURL (@LoadConfig noTables baseURLOnly host "dap").1 = "https://env.example.com".
Proof.
  apply (@C9_environment_overrides_file noTables baseURLOnly host "dap"
           "/home/dev/.config/dap/config.yaml"
           {| File.mode := 384; File.data := Some "https://file.example.com" |}
           "https://file.example.com").
  - reflexivity.
  - discriminate.
  - reflexivity.
  - reflexivity.
  - reflexivity.
  - discriminate.
Defined.

End ConfigFacts.

Module PermissionFacts.
Import Go Runtime RuntimeSpec RuntimeExamples StringFacts ConfigFacts.

(** *** The permission bits of the configuration file *)

Lemma testbit_36 n : 0 <= n → n ≠ 2 → n ≠ 5 → Z.testbit 36 n = false.
Proof.
  intros Hn H2 H5. destruct (Z.lt_ge_cases n 6) as [Hlt|Hge].
  - assert (Hc : n = 0 ∨ n = 1 ∨ n = 3 ∨ n = 4) by lia.
    by destruct Hc as [->|[->|[->| ->]]].
  - apply Z.bits_above_log2; [lia|]. change (Z.log2 36) with 5. lia.
Qed.

(** Octal 044 selects the read bits of the group and of the others. *)
Lemma groupOtherRead_bits m :
  Z.land (Z.land m ModePerm) groupOtherRead = 0
  ↔ Z.testbit m 5 = false ∧ Z.testbit m 2 = false.
Proof.
  unfold ModePerm, groupOtherRead. split.
  - intros E. split.
    + apply (f_equal (λ z, Z.testbit z 5)) in E.
      rewrite !Z.land_spec, Z.bits_0 in E. by rewrite !andb_true_r in E.
    + apply (f_equal (λ z, Z.testbit z 2)) in E.
      rewrite !Z.land_spec, Z.bits_0 in E. by rewrite !andb_true_r in E.
  - intros [H5 H2]. apply Z.bits_inj'. intros n Hn.
    rewrite !Z.land_spec, Z.bits_0.
    destruct (decide (n = 5)) as [->|N5]; [by rewrite H5|].
    destruct (decide (n = 2)) as [->|N2]; [by rewrite H2|].
    by rewrite testbit_36, andb_false_r.
Qed.

Section Config.
Context `{UnicodeTables} `{ConfigLib}.

Lemma getConfigPath_exists os appName :
  getConfigPath os appName ≠ "" → statOk os (getConfigPath os appName) = true.
Proof.
  unfold getConfigPath.
  destruct (if String.eqb (Getenv os "XDG_CONFIG_HOME") "" then _ else _) as [home|];
    [|done].
  destruct (statOk os (filepath_Join [home; appName; "config.yaml"])) eqn:E1; [done|].
  by destruct (statOk os (filepath_Join [home; appName; "config.yml"])) eqn:E2.
Qed.

(** X20. [LoadConfig] reads only a configuration file that exists, and
    warns about it exactly when the group or the others may read it; the
    content of the file, whether it can be read and whether it is valid
    YAML play no part. *)
Theorem X20_insecure_permissions_warning os appName :
  getConfigPath os appName ≠ "" →
  ∃ info,
    OS.files os !! getConfigPath os appName = Some info
    ∧ ((LoadConfig os appName).2 = ""
       ↔ Z.testbit (File.mode info) 5 = false ∧ Z.testbit (File.mode info) 2 = false).
Proof.
  intros Hp. pose proof (getConfigPath_exists os appName Hp) as Hs.
  unfold statOk in Hs.
  destruct (OS.files os !! getConfigPath os appName) as [info|] eqn:E; [|done].
  exists info. split; [done|]. rewrite <- groupOtherRead_bits.
  unfold LoadConfig, fileConfig. apply String.eqb_neq in Hp. rewrite Hp. cbn [negb].
  unfold loadConfigFile. rewrite E.
  destruct (Z.land (Z.land (File.mode info) ModePerm) groupOtherRead =? 0) eqn:Em;
    cbn [negb].
  - apply Z.eqb_eq in Em.
    destruct (File.data info); [destruct (yaml_Unmarshal _ _)|]; done.
  - apply Z.eqb_neq in Em.
    destruct (File.data info); [destruct (yaml_Unmarshal _ _)|]; done.
Qed.

(** X19. Without a configuration file that can be read, [LoadConfig]
    returns no error: the base URL is the value of the environment
    variable, the empty string when it is unset, and there is no header. *)
Theorem X19_LoadConfig_without_file os appName :
  (getConfigPath os appName = ""
   ∨ ∃ info, OS.files os !! getConfigPath os appName = Some info
             ∧ File.data info = None) →
  (LoadConfig os appName).1
  = {| Config.BaseURL := Getenv os (baseURLVariable appName); Config.Headers := ∅ |}.
Proof.
  intros Hfile.
  assert (Hc : (fileConfig os appName).1 = {| Config.BaseURL := ""; Config.Headers := ∅ |}).
  { unfold fileConfig. destruct Hfile as [-> |(info & Hinfo & Hdata)]; [done|].
    destruct (String.eqb (getConfigPath os appName) ""); [done|]. cbn [negb].
    unfold loadConfigFile. by rewrite Hinfo, Hdata. }
  unfold LoadConfig. destruct (fileConfig os appName) as [config warnings].
  cbn [fst] in Hc. subst config. rewrite envPrefix_variable. cbn [fst Config.Headers].
  destruct (String.eqb_spec (Getenv os (baseURLVariable appName)) "") as [->|]; done.
Qed.

End Config.

Lemma X19_witness :
  (@LoadConfig Tables.noTables baseURLOnly bareHost "dap").1
  = {| Config.BaseURL := ""; Config.Headers := ∅ |}.
Proof.
  apply (@X19_LoadConfig_without_file Tables.noTables baseURLOnly bareHost "dap").
  by left.
Defined.

Lemma X20_witness :
  ∃ info,
    OS.files host !! @getConfigPath baseURLOnly host "dap" = Some info
    ∧ ((@LoadConfig Tables.noTables baseURLOnly host "dap").2 = ""
       ↔ Z.testbit (File.mode info) 5 = false ∧ Z.testbit (File.mode info) 2 = false).
Proof.
  apply (@X20_insecure_permissions_warning Tables.noTables baseURLOnly host "dap").
  by vm_compute.
Defined.

End PermissionFacts.

Module SSEFacts.
Import Go Runtime RuntimeSpec RuntimeExamples StringFacts.

(** *** [strings.TrimSpace] and a leading newline *)







Section Decoder.
Context `{JSONLib}.

Lemma blen_zero st : (0 <? blen st) = false → SSE.dataBuffer st = "".
Proof.
  unfold blen. destruct (SSE.dataBuffer st); [done|]. simpl. intros Hb%Z.ltb_ge. lia.
Qed.

Lemma blen_pos st : (0 <? blen st) = true → SSE.dataBuffer st ≠ "".
Proof. unfold blen. intros Hb%Z.ltb_lt Hs. rewrite Hs in Hb. simpl in Hb. lia. Qed.



Lemma dataLine_shape line :
  dataLine line = true → String.eqb line "" = false ∧ HasPrefix line ":" = false.
Proof.
  unfold dataLine. destruct line as [|c s]; [done|]. cbn [HasPrefix].
  intros [Hc _]%andb_true_iff. apply Ascii.eqb_eq in Hc as <-. done.
Qed.

Lemma sseLine_data line st :
  dataLine line = true →
  sseLine line st
  = if MaxSSEEventSize <? blen st + Z.of_nat (String.length (dataOf line)) + 1
    then Return st ErrSSEEventTooLarge
    else Continue {| SSE.dataBuffer := appendData (SSE.dataBuffer st) (dataOf line);
                     SSE.out := SSE.out st |}.
Proof.
  intros Hd. destruct (dataLine_shape line Hd) as [Hb Hc].
  unfold sseLine. rewrite Hb, Hc. unfold dataLine in Hd. rewrite Hd. fold (dataOf line).
  destruct (MaxSSEEventSize <? _); [done|]. do 2 f_equal. unfold appendData.
  destruct (0 <? blen st) eqn:E.
  - apply blen_pos in E. apply String.eqb_neq in E. rewrite E. by rewrite append_assoc.
  - apply blen_zero in E. by rewrite E.
Qed.








(** *** The size cap *)

(** The accumulated data of an event never exceeds [MaxSSEEventSize]. *)
Lemma dataBuffer_bounded lines st :
  blen st <= MaxSSEEventSize →
  match sseLoop lines st with
  | Continue st' | Return st' _ => blen st' <= MaxSSEEventSize
  end.
Proof.
  revert st. induction lines as [|line rest IH]; intros st Hst; [done|].
  cbn [sseLoop]. destruct (sseLine line st) as [st1|st1 err] eqn:E.
  - apply IH. unfold sseLine in E.
    destruct (String.eqb line "").
    { destruct (0 <? blen st); injection E as <-; [by vm_compute|done]. }
    destruct (HasPrefix line ":"); [by injection E as <-|].
    destruct (HasPrefix line "data:").
    + destruct (MaxSSEEventSize <? _) eqn:Hc; [done|]. injection E as <-.
      apply Z.ltb_ge in Hc. unfold blen in *. cbn [SSE.dataBuffer].
      destruct (0 <? _); rewrite !length_append; cbn [nl str1 String.length]; lia.
    + destruct (_ || _); by injection E as <-.
  - unfold sseLine in E.
    repeat match type of E with
           | (if ?b then _ else _) = _ => destruct b
           end; congruence.
Qed.

(** A data line whose content would take the accumulated data beyond the
    cap ends the run with [ErrSSEEventTooLarge]; nothing more is written. *)
Lemma oversize_data_line_is_fatal line rest st :
  dataLine line = true →
  MaxSSEEventSize
  < blen st + (if 0 <? blen st then 1 else 0) + Z.of_nat (String.length (dataOf line)) →
  sseLoop (line :: rest) st = Return st ErrSSEEventTooLarge.
Proof.
  intros Hd Hsize. cbn [sseLoop]. rewrite sseLine_data by done.
  assert ((MaxSSEEventSize <? blen st + Z.of_nat (String.length (dataOf line)) + 1) = true)
    as ->; [|done].
  apply Z.ltb_lt. destruct (0 <? blen st); lia.
Qed.

(** *** A line beyond the buffer of the scanner *)

Lemma length_repeatByte n c : String.length (repeatByte n c) = n.
Proof. induction n as [|n IH]; [done|]. simpl. by rewrite IH. Qed.

Lemma forallb_repeatByte p n c : p c = true → Go.forallb p (repeatByte n c) = true.
Proof. intros Hc. induction n as [|n IH]; [done|]. simpl. by rewrite Hc. Qed.

Lemma splitLines_one_line cur s :
  Go.forallb (λ c, negb (Ascii.eqb c "010")) s = true →
  splitLines cur s = if String.eqb (cur +:+ s) "" then [] else [cur +:+ s].
Proof.
  revert cur. induction s as [|c s IH]; intros cur; cbn [Go.forallb splitLines].
  - by rewrite append_nil_r.
  - intros [Hc Hs]%andb_true_iff. apply negb_true_iff in Hc as ->.
    rewrite IH by done. unfold str1. by rewrite append_assoc.
Qed.

Lemma Scan_long_line n failure :
  MaxScanTokenSize <= 5 + Z.of_nat n →
  Scan {| Reader.content := longLine n; Reader.failure := failure |}
  = ([], Some ErrTooLong).
Proof.
  intros Hn. unfold Scan. cbn [Reader.content Reader.failure].
  rewrite splitLines_one_line.
  2:{ unfold longLine. rewrite forallb_app. apply andb_true_intro. split; [done|].
      by apply forallb_repeatByte. }
  rewrite append_nil_l. unfold longLine at 1. rewrite !append_cons.
  cbn [String.eqb Ascii.eqb]. cbv iota. cbn [scanTokens].
  assert ((MaxScanTokenSize <=? Z.of_nat (String.length (longLine n))) = true) as ->;
    [|done].
  apply Z.leb_le. unfold longLine. rewrite length_append, length_repeatByte.
  cbn [String.length]. lia.
Qed.

Lemma handleSSE_long_line n out :
  MaxScanTokenSize <= 5 + Z.of_nat n →
  handleSSE {| Reader.content := longLine n; Reader.failure := None |} out
  = (out, Some ("error reading SSE stream: " +:+ ErrTooLong)).
Proof. intros Hn. unfold handleSSE. by rewrite Scan_long_line. Qed.

End Decoder.

(** The data of the long line are its [n] bytes. *)
Lemma concat_raw_ascii s p :
  isASCII s = true → String.concat "" (List.map raw (range_go 0 p s)) = s.
Proof.
  revert p. induction s as [|c s IH]; intros p; [done|].
  unfold isASCII. cbn [Go.forallb]. intros [Hc Hs]%andb_true_iff.
  rewrite range_go_ascii by done. cbn [List.map raw].
  by rewrite concat_cons, IH.
Qed.

Lemma get_repeatByte n c : String.get n (repeatByte (S n) c) = Some c.
Proof. induction n as [|n IH]; [done|]. exact IH. Qed.

Lemma TrimSpace_repeatByte n : TrimSpace (repeatByte n "x") = repeatByte n "x".
Proof.
  unfold TrimSpace, range. destruct n as [|n]; [done|].
  assert (Hleft : trimLeftSpace (range_go 0 None (repeatByte (S n) "x"))
                  = repeatByte (S n) "x").
  { cbn [repeatByte]. rewrite range_go_ascii by reflexivity. cbn [trimLeftSpace rune].
    change (IsSpace (code "x")) with false. cbv iota.
    rewrite <- (range_go_ascii None "x" (repeatByte n "x")) by reflexivity.
    apply (concat_raw_ascii (repeatByte (S n) "x")). by apply forallb_repeatByte. }
  rewrite Hleft, length_repeatByte. cbn [trimRightSpace].
  unfold DecodeLastRuneInString. rewrite length_repeatByte.
  replace (Z.of_nat (S n) =? 0) with false by (symmetry; apply Z.eqb_neq; lia).
  unfold byteAt. replace (Z.to_nat (Z.of_nat (S n) - 1)) with n by lia.
  rewrite get_repeatByte. done.
Qed.

Lemma dataOf_longLine n : dataOf (longLine n) = repeatByte n "x".
Proof.
  unfold dataOf, longLine, TrimPrefix. rewrite !append_cons, append_nil_l.
  cbn [HasPrefix Ascii.eqb Bool.eqb andb String.length drop]. apply TrimSpace_repeatByte.
Qed.

(** C6, at an input on which the code departs from the claim.  The data of
    the one event of the stream exceed [MaxSSEEventSize]; the scanner stops
    at its line with [ErrTooLong], and [handleSSE] returns the error of the
    scanner, not [ErrSSEEventTooLarge]. *)
Theorem C6_oversize_line_is_scanner_error `{JSONLib} out :
  dataLine (longLine oversizeLength) = true
  ∧ MaxSSEEventSize < Z.of_nat (String.length (dataOf (longLine oversizeLength)))
  ∧ handleSSE {| Reader.content := longLine oversizeLength; Reader.failure := None |} out
    = (out, Some "error reading SSE stream: bufio.Scanner: token too long")
  ∧ "error reading SSE stream: bufio.Scanner: token too long" ≠ ErrSSEEventTooLarge.
Proof.
  assert (Hlen : Z.of_nat oversizeLength = 11000000) by (by apply Z2Nat.id).
  split_and!.
  - reflexivity.
  - rewrite dataOf_longLine, length_repeatByte, Hlen. reflexivity.
  - apply handleSSE_long_line. rewrite Hlen. by vm_compute.
  - discriminate.
Qed.


End SSEFacts.

Module StreamFacts.
Import Go Runtime RuntimeSpec RuntimeExamples StringFacts Utf8Facts SSEFacts.

(** *** Lengths *)









(** *** The lines of the scanner *)






Section Decoder.
Context `{JSONLib}.



End Decoder.

(** *** The content type of an event stream *)

(** X22. A content type is that of an event stream when it holds
    [text/event-stream], whatever stands before it or after it, such as
    the parameter of a character set. *)
Theorem X22_isEventStream_with_parameters pre post :
  isEventStream (pre +:+ "text/event-stream" +:+ post) = true.
Proof.
  unfold isEventStream. induction pre as [|c pre IH].
  - rewrite append_nil_l. apply Contains_prefix, HasPrefix_app.
  - rewrite append_cons, Contains_cons. by rewrite IH, orb_true_r.
Qed.


End StreamFacts.

Module DoFacts.
Import Go Runtime RuntimeSpec RuntimeExamples StringFacts RequestFacts URLFacts.

Section Do.
Context `{HTTPLib} `{JSONLib}.

Lemma Build_missing r baseURL pathOrder headerOrder :
  missingOf r ≠ [] →
  Build r baseURL pathOrder headerOrder
  = Err ("missing required path parameter(s): " +:+ Join (missingOf r) ", ").
Proof.
  intros Hm. unfold Build. rewrite missingParams_filter. fold (missingOf r).
  by destruct (missingOf r).
Qed.

(** X14. When a placeholder of the path has no value, [Do] hands no
    request to the HTTP client and writes nothing; its error is that of
    [Build], which names the placeholders, behind the words
    [failed to build request]. *)
Theorem X14_Do_sends_nothing_on_missing_parameter
        r req pathOrder headerOrder runtimeOrder w :
  missingOf req ≠ [] →
  Do r req pathOrder headerOrder runtimeOrder w
  = {| Outcome.sent := None; Outcome.sinks := w;
       Outcome.err :=
         Some ("failed to build request: missing required path parameter(s): "
               +:+ Join (missingOf req) ", ") |}.
Proof.
  intros Hm. unfold Do. by rewrite Build_missing.
Qed.

(** X15. A header of the runtime is on every request [Do] hands to the
    client, under its canonical name: it replaces a header of that name
    set on the request, and the JSON content type of a body. *)
Theorem X15_runtime_header_wins
        r req pathOrder headerOrder runtimeOrder w httpReq key value :
  entriesInSomeOrder (Client.Headers r) runtimeOrder →
  Outcome.sent (Do r req pathOrder headerOrder runtimeOrder w) = Some httpReq →
  Client.Headers r !! key = Some value →
  soleHeader (Client.Headers r) key →
  HttpRequest.Header httpReq !! CanonicalMIMEHeaderKey key = Some [value].
Proof.
  intros Horder Hsent Hkey Hsole. unfold entriesInSomeOrder in Horder.
  assert (Hset : ∀ h, fold_left (λ h kv, HeaderSet h kv.1 kv.2) runtimeOrder h
                      !! CanonicalMIMEHeaderKey key = Some [value]).
  { intros h. apply headers_set.
    - exists (key, value). split; [|done]. rewrite Horder. by apply elem_of_map_to_list.
    - intros [k v] Hkv Hk. rewrite Horder in Hkv. apply elem_of_map_to_list in Hkv.
      cbn [fst snd] in *. assert (k = key) as -> by (by apply Hsole). congruence. }
  unfold Do in Hsent.
  destruct (Build req (Client.BaseURL r) pathOrder headerOrder) as [built|]; [|done].
  assert (Hreq : httpReq = addRuntimeHeaders built runtimeOrder).
  { destruct (Client.HTTPClient r _) as [resp|]; [|by injection Hsent].
    destruct (isEventStream _).
    - destruct (handleSSE _ _). by injection Hsent.
    - destruct (handleResponse _ _). by injection Hsent. }
  rewrite Hreq. apply Hset.
Qed.

(** X16. For a response that announces an event stream, [Do] is
    [handleSSE] on its body: the status code plays no part, and nothing
    is written to the standard error. *)
Theorem X16_event_stream_status_unchecked
        r req pathOrder headerOrder runtimeOrder w built resp :
  Build req (Client.BaseURL r) pathOrder headerOrder = Ok built →
  Client.HTTPClient r (addRuntimeHeaders built runtimeOrder) = Ok resp →
  isEventStream (HeaderGet (HttpResponse.Header resp) "Content-Type") = true →
  let stream := handleSSE (Response.Body (HttpResponse.Response resp)) (Sinks.out w) in
  let outcome := Do r req pathOrder headerOrder runtimeOrder w in
  Outcome.err outcome = stream.2
  ∧ Sinks.out (Outcome.sinks outcome) = stream.1
  ∧ Sinks.stderr (Outcome.sinks outcome) = Sinks.stderr w.
Proof.
  intros Hb Hc Hs stream outcome. subst stream outcome. unfold Do.
  rewrite Hb, Hc, Hs. by destruct (handleSSE _ _).
Qed.

(** *** [LoadBody] *)

(** X17. Data that is not empty and does not start with [@] is the body,
    unchanged, whatever the files and the standard input hold; sent with
    [SetBody], it is the body of the request [Build] makes, whose content
    type is JSON. *)
Theorem X17_raw_data_is_the_body os stdin data r baseURL pathOrder headerOrder httpReq :
  data ≠ "" → HasPrefix data "@" = false →
  Build (SetBody r (LoadBody os stdin data).1) baseURL pathOrder headerOrder = Ok httpReq →
  LoadBody os stdin data = (Some data, None)
  ∧ HttpRequest.Body httpReq = Some data
  ∧ HttpRequest.Header httpReq !! "Content-Type" = Some ["application/json"].
Proof.
  intros Hd Hp. unfold LoadBody. apply String.eqb_neq in Hd. rewrite Hd, Hp. cbn [fst].
  unfold Build. destruct (0 <? length _)%nat; [done|].
  destruct (newRequestError _ _); [done|]. intros [= <-]. cbn.
  split; [done|]. split; [done|]. unfold HeaderSet. by rewrite lookup_insert_eq.
Qed.

(** X18. [LoadBody] returns a nil body without an error for the empty
    data only. *)
Theorem X18_LoadBody_nil os stdin data :
  LoadBody os stdin data = (None, None) ↔ data = "".
Proof.
  unfold LoadBody. destruct (String.eqb_spec data ""); [done|].
  split; [|done]. destruct (HasPrefix data "@"); [|done].
  destruct (String.eqb (drop 1 data) "-"); [done|]. by destruct (ReadFile _ _).
Qed.

End Do.

Lemma X14_witness :
  missingOf postOfUser ≠ []
  ∧ Outcome.sent (@Do anyRequest bracedJSON (answering failingStream) postOfUser
                      [("id", "42")] [] [] noOutput) = None.
Proof.
  assert (Hm : missingOf postOfUser ≠ []) by (by vm_compute).
  split; [done|].
  by rewrite (@X14_Do_sends_nothing_on_missing_parameter anyRequest bracedJSON
                (answering failingStream) postOfUser [("id", "42")] [] [] noOutput Hm).
Defined.

Lemma X15_witness :
  ∃ httpReq,
    Outcome.sent (@Do anyRequest bracedJSON (xmlClient failingStream) createTask []
                      [("content-type", "text/plain")]
                      [("content-type", "application/xml")] noOutput) = Some httpReq
    ∧ HttpRequest.Header httpReq !! "Content-Type" = Some ["application/xml"].
Proof.
  destruct (Outcome.sent (@Do anyRequest bracedJSON (xmlClient failingStream) createTask []
                              [("content-type", "text/plain")]
                              [("content-type", "application/xml")] noOutput))
    as [httpReq|] eqn:E; [|by vm_compute in E].
  exists httpReq. split; [done|].
  apply (@X15_runtime_header_wins anyRequest bracedJSON (xmlClient failingStream)
           createTask [] [("content-type", "text/plain")]
           [("content-type", "application/xml")] noOutput httpReq
           "content-type" "application/xml").
  - unfold entriesInSomeOrder. vm_compute. reflexivity.
  - done.
  - reflexivity.
  - intros name' [v Hv] _. cbn in Hv. by apply lookup_singleton_Some in Hv as [? _].
Defined.

Lemma X16_witness :
  Outcome.err (@Do anyRequest bracedJSON (answering failingStream)
                   (NewRequest "GET" "/events") [] [] [] noOutput) = None
  ∧ Sinks.out (Outcome.sinks (@Do anyRequest bracedJSON (answering failingStream)
                                  (NewRequest "GET" "/events") [] [] [] noOutput))
    = "down" +:+ nl.
Proof.
  destruct (@X16_event_stream_status_unchecked anyRequest bracedJSON
              (answering failingStream) (NewRequest "GET" "/events") [] [] [] noOutput
              {| HttpRequest.Method := "GET";
                 HttpRequest.URL := "https://api.example.com/events";
                 HttpRequest.Header := ∅; HttpRequest.Body := None |}
              failingStream)
    as (-> & -> & _); [reflexivity..|].
  split; reflexivity.
Defined.

Lemma X17_witness :
  ∃ httpReq,
    @Build anyRequest (SetBody (NewRequest "POST" "/tasks")
                               (LoadBody bareHost closedInput "{}").1)
           "https://api.example.com" [] [] = Ok httpReq
    ∧ HttpRequest.Body httpReq = Some "{}".
Proof.
  destruct (@Build anyRequest (SetBody (NewRequest "POST" "/tasks")
                                       (LoadBody bareHost closedInput "{}").1)
                   "https://api.example.com" [] []) as [httpReq|] eqn:E;
    [|by vm_compute in E].
  exists httpReq. split; [done|].
  destruct (@X17_raw_data_is_the_body anyRequest bareHost closedInput "{}"
              (NewRequest "POST" "/tasks") "https://api.example.com" [] [] httpReq)
    as (_ & -> & _); done.
Defined.

Lemma X18_witness : LoadBody bareHost closedInput "" = (None, None).
Proof. by apply (proj2 (X18_LoadBody_nil bareHost closedInput "")). Defined.

End DoFacts.

Module GenFacts.
Import Go Runtime Gen Tables GenSpec StringFacts Utf8Facts KebabFacts.

(** *** [strings.ReplaceAll] of one byte *)

Lemma replace_go_byte_cons b new c s :
  replace_go (str1 b) new 0 (String c s)
  = (if Ascii.eqb b c then new else str1 c) +:+ replace_go (str1 b) new 0 s.
Proof.
  cbn [replace_go str1 HasPrefix String.length Nat.sub]. rewrite andb_true_r.
  by destruct (Ascii.eqb b c).
Qed.

Lemma replace_go_byte_app b new u rest :
  replace_go (str1 b) new 0 (u +:+ rest)
  = replace_go (str1 b) new 0 u +:+ replace_go (str1 b) new 0 rest.
Proof.
  induction u as [|c u IH]; [done|].
  by rewrite append_cons, !replace_go_byte_cons, IH, append_assoc.
Qed.

(** What [escapeDescription] makes of a byte. *)
Lemma escapeDescription_cons c s :
  escapeDescription (String c s)
  = (if Ascii.eqb "092" c then backslash +:+ backslash
     else if Ascii.eqb "034" c then backslash +:+ quote else str1 c)
    +:+ escapeDescription s.
Proof.
  unfold escapeDescription, ReplaceAll, backslash, quote. cbn [str1].
  change (String "092" "") with (str1 "092"). change (String "034" "") with (str1 "034").
  rewrite replace_go_byte_cons, replace_go_byte_app. f_equal.
  destruct (Ascii.eqb "092" c) eqn:E; [reflexivity|].
  change (str1 c) with (String c ""). rewrite replace_go_byte_cons.
  cbn [replace_go]. by rewrite append_nil_r.
Qed.

Lemma unescape_escaped d t : unescape (String "092" (String d t)) = String d (unescape t).
Proof. reflexivity. Qed.

Lemma unescape_other c t :
  Ascii.eqb c "092" = false → unescape (String c t) = String c (unescape t).
Proof. intros E. cbn [unescape]. by rewrite E. Qed.

(** X23. What [escapeDescription] returns reads, as the body of a Go
    string literal, as the text it was given: every backslash and every
    double quote of the text is escaped, and nothing else is changed. *)
Theorem X23_escapeDescription_round_trip s : unescape (escapeDescription s) = s.
Proof.
  induction s as [|c s IH]; [done|]. rewrite escapeDescription_cons.
  destruct (Ascii.eqb "092" c) eqn:E1.
  - apply Ascii.eqb_eq in E1 as <-. unfold backslash, str1.
    repeat first [rewrite append_cons | rewrite append_nil_l].
    by rewrite unescape_escaped, IH.
  - destruct (Ascii.eqb "034" c) eqn:E2.
    + apply Ascii.eqb_eq in E2 as <-. unfold backslash, quote, str1.
      repeat first [rewrite append_cons | rewrite append_nil_l].
    by rewrite unescape_escaped, IH.
    + unfold str1. rewrite append_cons, append_nil_l, unescape_other, IH; [done|].
      by rewrite Ascii.eqb_sym.
Qed.

(** *** ASCII strings and their runes *)

Lemma forallb_impl (p q : ascii → bool) s :
  (∀ c, p c = true → q c = true) → Go.forallb p s = true → Go.forallb q s = true.
Proof.
  intros Hpq. induction s as [|c s IH]; [done|]. cbn [Go.forallb].
  intros [Hc Hs]%andb_true_iff. by rewrite (Hpq _ Hc), IH.
Qed.

Lemma rune_before p s :
  List.map rune (range_go 0 p s) = List.map rune (range_go 0 None s).
Proof.
  destruct s as [|c s]; [done|]. cbn [range_go].
  by destruct (DecodeRuneInString (String c s)).
Qed.

Lemma runes_ascii_cons c s :
  (code c <? RuneSelf) = true → runes (String c s) = code c :: runes s.
Proof.
  intros Hc. unfold runes, range. rewrite range_go_ascii by done.
  cbn [List.map rune]. by rewrite rune_before.
Qed.

Lemma ofRunes_ascii r rs : 0 <= r <= 0x7F → ofRunes (r :: rs) = String (chr r) (ofRunes rs).
Proof. intros Hr. by rewrite ofRunes_cons, EncodeRune_1. Qed.

Lemma ofRunes_runes_ascii s : isASCII s = true → ofRunes (runes s) = s.
Proof.
  induction s as [|c s IH]; [done|]. unfold isASCII. cbn [Go.forallb].
  intros [Hc Hs]%andb_true_iff. rewrite runes_ascii_cons by done.
  pose proof (code_range c). unfold RuneSelf in Hc.
  rewrite ofRunes_ascii by lia. by rewrite chr_code, IH.
Qed.

(** A string that is not empty has a rune: [mapFirst] finds one where
    the code indexes [runes[0]]. *)
Lemma runes_nonempty c s : runes (String c s) ≠ [].
Proof.
  unfold runes, range. cbn [range_go].
  by destruct (DecodeRuneInString (String c s)).
Qed.

Section Names.
Context `{UnicodeTables}.

Lemma mapFirst_ascii f c s :
  isASCII (String c s) = true → between 0 0x7F (f (code c)) = true →
  mapFirst f (String c s) = String (chr (f (code c))) s.
Proof.
  unfold isASCII. cbn [Go.forallb]. intros [Hc Hs]%andb_true_iff Hf%between_spec.
  unfold mapFirst. rewrite runes_ascii_cons by done.
  by rewrite ofRunes_ascii, ofRunes_runes_ascii.
Qed.

(** The two case mappings on ASCII bytes. *)
Lemma ToUpper_ascii c :
  (code c <? RuneSelf) = true → between 0 0x7F (ToUpper (code c)) = true.
Proof. each_byte c. Qed.

Lemma ToLower_ascii c :
  (code c <? RuneSelf) = true → between 0 0x7F (ToLower (code c)) = true.
Proof. each_byte c. Qed.

Lemma ToUpper_hyphen c :
  asciiNot "-" c = true → asciiNot "-" (chr (ToUpper (code c))) = true.
Proof. each_byte c. Qed.

Lemma ToUpper_separators c :
  asciiNot "-_" c = true → asciiNot "-_" (chr (ToUpper (code c))) = true.
Proof. each_byte c. Qed.

Lemma ToLower_separators c :
  asciiNot "-_" c = true → asciiNot "-_" (chr (ToLower (code c))) = true.
Proof. each_byte c. Qed.

Lemma ToLower_not_capital c :
  (code c <? RuneSelf) = true →
  between 0x41 0x5A (code (chr (ToLower (code c)))) = false.
Proof. each_byte c. Qed.

Lemma asciiNot_ascii seps c : asciiNot seps c = true → (code c <? RuneSelf) = true.
Proof. unfold asciiNot. by intros [? _]%andb_true_iff. Qed.

Lemma asciiNot_isASCII seps s : Go.forallb (asciiNot seps) s = true → isASCII s = true.
Proof. apply forallb_impl, asciiNot_ascii. Qed.

(** [capitalize] keeps a set of ASCII bytes that [ToUpper] keeps. *)
Lemma capitalize_forallb seps part :
  (∀ c, asciiNot seps c = true → asciiNot seps (chr (ToUpper (code c))) = true) →
  Go.forallb (asciiNot seps) part = true →
  Go.forallb (asciiNot seps) (capitalize part) = true.
Proof.
  intros Hup Hp. destruct part as [|c s]; [done|].
  unfold capitalize. cbn [String.length Nat.eqb].
  pose proof (asciiNot_isASCII _ _ Hp) as Ha.
  cbn [Go.forallb] in Hp. apply andb_true_iff in Hp as [Hc Hs].
  rewrite mapFirst_ascii; [|done|by eapply ToUpper_ascii, asciiNot_ascii].
  cbn [Go.forallb]. by rewrite Hup, Hs.
Qed.

Lemma capitalizeParts_forallb seps parts :
  (∀ c, asciiNot seps c = true → asciiNot seps (chr (ToUpper (code c))) = true) →
  Forall (λ part, Go.forallb (asciiNot seps) part = true) parts →
  Forall (λ part, Go.forallb (asciiNot seps) part = true) (capitalizeParts parts).
Proof.
  intros Hup Hparts. unfold capitalizeParts. apply Forall_forall.
  intros part' [part [-> Hin]]%list_elem_of_fmap.
  rewrite Forall_forall in Hparts. specialize (Hparts _ Hin).
  destruct (0 <? String.length part)%nat; [by apply capitalize_forallb|done].
Qed.

(** *** [strings.Split] and [strings.Join] *)

Lemma split_go_parts (p : ascii → bool) b cur s :
  Go.forallb (λ c, p c && negb (Ascii.eqb c b)) cur = true →
  Go.forallb p s = true →
  Forall (λ part, Go.forallb (λ c, p c && negb (Ascii.eqb c b)) part = true)
         (split_go (str1 b) 0 cur s).
Proof.
  revert cur. induction s as [|c s IH]; intros cur Hcur Hs; [by constructor|].
  cbn [Go.forallb] in Hs. apply andb_true_iff in Hs as [Hc Hs].
  cbn [split_go str1 HasPrefix String.length Nat.sub]. rewrite andb_true_r.
  destruct (Ascii.eqb b c) eqn:E.
  - constructor; [done|]. by apply IH.
  - apply IH; [|done]. rewrite forallb_app, Hcur. cbn [Go.forallb str1].
    by rewrite Hc, Ascii.eqb_sym, E.
Qed.

Lemma Join_forallb (p : ascii → bool) parts :
  Forall (λ part, Go.forallb p part = true) parts →
  Go.forallb p (Join parts "") = true.
Proof.
  induction 1 as [|part parts Hp Hparts IH]; [done|]. cbn [Join].
  destruct parts as [|part' parts]; [done|].
  by rewrite append_nil_l, forallb_app, Hp, IH.
Qed.

Lemma forallb_ext (p q : ascii → bool) s :
  (∀ c, p c = q c) → Go.forallb p s = Go.forallb q s.
Proof. intros Hpq. induction s as [|c s IH]; [done|]. cbn. by rewrite Hpq, IH. Qed.

(** The result of the first round of [toVarName], and of the second. *)
Lemma joined_hyphens s :
  isASCII s = true →
  Go.forallb (asciiNot "-") (Join (capitalizeParts (Split s "-")) "") = true.
Proof.
  intros Hs. apply Join_forallb, capitalizeParts_forallb; [apply ToUpper_hyphen|].
  unfold Split. change "-" with (str1 "-").
  eapply Forall_impl; [by apply (split_go_parts (λ c, code c <? RuneSelf) "-" "" s)|].
  intros part Hp. cbv beta in Hp. erewrite forallb_ext; [exact Hp|].
  intros c. unfold asciiNot, isOneOf. cbn. by rewrite orb_false_r.
Qed.

Lemma joined_underscores s :
  Go.forallb (asciiNot "-") s = true →
  Go.forallb (asciiNot "-_") (Join (capitalizeParts (Split s "_")) "") = true.
Proof.
  intros Hs. apply Join_forallb, capitalizeParts_forallb; [apply ToUpper_separators|].
  unfold Split. change "_" with (str1 "_").
  eapply Forall_impl; [by apply (split_go_parts (asciiNot "-") "_" "" s)|].
  intros part Hp. cbv beta in Hp. erewrite forallb_ext; [exact Hp|].
  intros c. unfold asciiNot, isOneOf. cbn.
  destruct (code c <? RuneSelf), (Ascii.eqb c "-"), (Ascii.eqb c "_"); done.
Qed.

(** X24. The variable name [toVarName] makes of an ASCII string holds
    ASCII bytes only, no hyphen and no underscore, and does not start
    with a capital letter. *)
Theorem X24_toVarName_ascii s :
  isASCII s = true →
  Go.forallb (asciiNot "-_") (toVarName s) = true
  ∧ ∀ c rest, toVarName s = String c rest → between 0x41 0x5A (code c) = false.
Proof.
  intros Hs. unfold toVarName. cbv zeta.
  pose proof (joined_underscores _ (joined_hyphens s Hs)) as Hr.
  destruct (Join (capitalizeParts (Split _ "_")) "") as [|c result]; [done|].
  pose proof (asciiNot_isASCII _ _ Hr) as Ha.
  cbn [Go.forallb] in Hr. apply andb_true_iff in Hr as [Hc Hrest].
  pose proof (asciiNot_ascii _ _ Hc) as Hc'.
  cbn [String.length Nat.ltb Nat.leb].
  rewrite mapFirst_ascii; [|done|by apply ToLower_ascii].
  split.
  - cbn [Go.forallb]. by rewrite ToLower_separators, Hrest.
  - intros c' rest [= <- _]. by apply ToLower_not_capital.
Qed.

End Names.

Lemma X24_witness :
  isASCII "user-id_token" = true
  ∧ Go.forallb (asciiNot "-_") (@toVarName noTables "user-id_token") = true.
Proof.
  assert (Ha : isASCII "user-id_token" = true) by reflexivity.
  split; [done|].
  apply (@X24_toVarName_ascii noTables "user-id_token" Ha).
Defined.

End GenFacts.
